(** * wrap_functions.py: a shallow embedding and its properties

    The script reads a file, rewrites it with two [re.sub] calls per
    requested function name, writes it back and prints a summary line.
    The embedding follows the script line by line.  What the script takes
    from Python itself is modelled next to it:

    - string literals ([rf'...'], implicit concatenation of adjacent
      literals, octal escapes), module [PyStr];
    - the part of the [re] module the script uses: the pattern parser, the
      backtracking matcher, [search], templates and [sub], module [Re];
    - text-mode file I/O with universal newlines, [sys.argv] and [print],
      module [Script].

    Characters are code points below 256 ([ascii]); a Python [str] is a
    [string], and the matcher works on [list ascii]. *)

From Stdlib Require Import Ascii String Arith Lia DecimalString.
From stdpp Require Import base option list gmap strings.

Local Open Scope char_scope.
Local Open Scope list_scope.

(** ** Outcomes of Python computations *)

(** The errors [re.compile] raises on the patterns of the modelled
    fragment ([re.error], by message). *)
Inductive re_error : Type :=
| MissingParen        (* missing ), unterminated subpattern *)
| UnbalancedParen     (* unbalanced parenthesis *)
| NothingToRepeat     (* nothing to repeat *)
| MultipleRepeat      (* multiple repeat *)
| UnterminatedSet     (* unterminated character set *)
| BadEscapeEnd        (* bad escape (end of pattern) *)
| InvalidGroupRef (n : nat).  (* invalid group reference n *)

Inductive exn : Type :=
| ReError (e : re_error)
| IndexError
| FileNotFoundError
| PermissionError.

(** [Ok]: the call returns; [Raise]: it raises; [Unmodelled]: the input
    uses regular-expression syntax outside the modelled fragment, and the
    model says nothing about it. *)
Inductive result (A : Type) : Type :=
| Ok (a : A)
| Raise (e : exn)
| Unmodelled.
Arguments Ok {A} a.
Arguments Raise {A} e.
Arguments Unmodelled {A}.

Definition rbind {A B : Type} (r : result A) (f : A -> result B) : result B :=
  match r with
  | Ok a => f a
  | Raise e => Raise e
  | Unmodelled => Unmodelled
  end.

Notation "x <-r c ; k" := (rbind c (fun x => k))
  (at level 100, c at next level, right associativity).


Definition chars (s : string) : list ascii := list_ascii_of_string s.
Definition text (l : list ascii) : string := string_of_list_ascii l.

(** ** Python string literals *)
Module PyStr.

(** Body of a raw f-string ([rf'...']): backslashes stay, [{{] and [}}]
    stand for one brace, [{name}] is replaced by the value of [name]. *)
Fixpoint rf_body (env : string -> string) (field : option (list ascii))
    (src : list ascii) : list ascii :=
  match field, src with
  | _, [] => []
  | None, c :: t =>
      if Ascii.eqb c "{" then
        match t with
        | c' :: t' =>
            if Ascii.eqb c' "{" then "{" :: rf_body env None t'
            else rf_body env (Some []) t
        | [] => []
        end
      else if Ascii.eqb c "}" then
        match t with
        | c' :: t' =>
            if Ascii.eqb c' "}" then "}" :: rf_body env None t'
            else "}" :: rf_body env None t
        | [] => ["}"]
        end
      else c :: rf_body env None t
  | Some name, c :: t =>
      if Ascii.eqb c "}" then chars (env (text (rev name))) ++ rf_body env None t
      else rf_body env (Some (c :: name)) t
  end.

Definition rf (env : string -> string) (src : string) : string :=
  text (rf_body env None (chars src)).

Definition octal_digit (c : ascii) : option nat :=
  let n := nat_of_ascii c in
  if Nat.leb 48 n && Nat.leb n 55 then Some (n - 48) else None.

(** Body of an ordinary literal (['...'], no prefix): a backslash followed
    by up to three octal digits is the character with that code, [\\]
    is a backslash; braces are ordinary characters.  The literals of the
    script without a prefix have no other escape. *)
Fixpoint plain_body (src : list ascii) : list ascii :=
  match src with
  | [] => []
  | c :: t =>
      if Ascii.eqb c "\" then
        match t with
        | [] => [c]
        | d1 :: t1 =>
            match octal_digit d1 with
            | None =>
                if Ascii.eqb d1 "\" then "\" :: plain_body t1
                else c :: plain_body t
            | Some n1 =>
                match t1 with
                | d2 :: t2 =>
                    match octal_digit d2 with
                    | None => ascii_of_nat n1 :: plain_body t1
                    | Some n2 =>
                        match t2 with
                        | d3 :: t3 =>
                            match octal_digit d3 with
                            | None => ascii_of_nat (8 * n1 + n2) :: plain_body t2
                            | Some n3 =>
                                ascii_of_nat (64 * n1 + 8 * n2 + n3) :: plain_body t3
                            end
                        | [] => [ascii_of_nat (8 * n1 + n2)]
                        end
                    end
                | [] => [ascii_of_nat n1]
                end
            end
        end
      else c :: plain_body t
  end.

Definition plain (src : string) : string := text (plain_body (chars src)).

(** A raw literal ([r'...']) is its own body. *)
Definition raw (src : string) : string := src.

End PyStr.

(** ** The [re] module *)
Module Re.

(** *** Patterns *)

(** An item of a character set; [\s], [\S], [\d] and [\D] are the
    categories of a [str] pattern restricted to code points below 256. *)
Inductive citem : Type :=
| CLit (c : ascii)
| CSpace
| CNotSpace
| CDigit
| CNotDigit.

Inductive regex : Type :=
| REps
| RChar (c : ascii)
| RAny
| RSet (negate : bool) (items : list citem)
| RCat (r1 r2 : regex)
| RAlt (r1 r2 : regex)
| RStar (r : regex)
| RPlus (r : regex)
| ROpt (r : regex)
| RGroup (n : nat) (r : regex).

(** [str.isspace] below 256, which is what [\s] matches. *)
Definition is_space (c : ascii) : bool :=
  let n := nat_of_ascii c in
  (Nat.leb 9 n && Nat.leb n 13) || (Nat.leb 28 n && Nat.leb n 32)
  || Nat.eqb n 133 || Nat.eqb n 160.

Definition is_digit (c : ascii) : bool :=
  let n := nat_of_ascii c in Nat.leb 48 n && Nat.leb n 57.

Definition is_ascii_letter (c : ascii) : bool :=
  let n := nat_of_ascii c in
  (Nat.leb 65 n && Nat.leb n 90) || (Nat.leb 97 n && Nat.leb n 122).

(** [SPECIAL_CHARS] of the pattern parser. *)
Definition special_chars : list ascii :=
  ["."; "\"; "["; "{"; "("; ")"; "*"; "+"; "?"; "^"; "$"; "|"].

Definition is_special (c : ascii) : bool :=
  existsb (Ascii.eqb c) special_chars.

(** *** The pattern parser

    One pass over the pattern, left to right, with the stack of the
    groups that are open.  A frame holds the alternatives already closed
    by [|] and the items of the branch being read, both latest first.

    The fragment: literal characters, [.], a backslash before a character
    that is no letter and no digit, the categories [\s], [\S], [\d] and
    [\D], sets without ranges, capturing groups, [|] and the greedy [*],
    [+] and [?].  Anchors, counted repeats, lazy and possessive
    quantifiers, [(?...)] and the other escapes are [Unmodelled].

    The parser of [re] is recursive, two calls for a group inside a
    group, and the interpreter bounds the depth of calls (1000 by
    default): a pattern with some hundreds of groups one inside the
    other ends in [RecursionError], at a depth that depends on the calls
    already on the stack.  The model reads groups nested at most
    [max_nesting] deep, well inside that bound; a deeper pattern is
    [Unmodelled]. *)
Definition max_nesting : nat := 100.

Record frame : Type := Frame {
  fr_group : nat;
  fr_alts : list regex;
  fr_seq : list regex
}.

Record pstate : Type := PState {
  ps_cur : frame;
  ps_stack : list frame;
  ps_groups : nat
}.

Definition branch_of (rev_items : list regex) : regex :=
  fold_left (fun acc i => RCat i acc) rev_items REps.

Definition close_frame (f : frame) : regex :=
  fold_left (fun acc b => RAlt b acc) (fr_alts f) (branch_of (fr_seq f)).

Definition push_item (i : regex) (st : pstate) : pstate :=
  let f := ps_cur st in
  PState (Frame (fr_group f) (fr_alts f) (i :: fr_seq f))
         (ps_stack st) (ps_groups st).

Definition is_repeat (r : regex) : bool :=
  match r with
  | RStar _ | RPlus _ | ROpt _ => true
  | _ => false
  end.

Definition repeat_of (q : ascii) (r : regex) : regex :=
  if Ascii.eqb q "*" then RStar r
  else if Ascii.eqb q "+" then RPlus r
  else ROpt r.

(** What follows a backslash, in a set ([CLit c] is the character
    itself) or outside one.  [None]: an escape outside the fragment
    (a letter or digit other than [s], [S], [d], [D]). *)
Definition escape_item (e : ascii) : option citem :=
  if Ascii.eqb e "s" then Some CSpace
  else if Ascii.eqb e "S" then Some CNotSpace
  else if Ascii.eqb e "d" then Some CDigit
  else if Ascii.eqb e "D" then Some CNotDigit
  else if is_ascii_letter e || is_digit e then None
  else Some (CLit e).

Definition item_regex (i : citem) : regex :=
  match i with
  | CLit c => RChar c
  | _ => RSet false [i]
  end.

Definition starts_with (c : ascii) (s : list ascii) : bool :=
  match s with
  | a :: _ => Ascii.eqb a c
  | [] => false
  end.

(** [set = None]: reading a branch; [set = Some (negate, items)]:
    inside [[...]], with the items read so far, latest first. *)
Fixpoint parse (src : list ascii) (set : option (bool * list citem))
    (st : pstate) : result (regex * nat) :=
  match set with
  | None =>
      match src with
      | [] =>
          match ps_stack st with
          | [] => Ok (close_frame (ps_cur st), ps_groups st)
          | _ :: _ => Raise (ReError MissingParen)
          end
      | c :: t =>
          if Ascii.eqb c "\" then
            match t with
            | [] => Raise (ReError BadEscapeEnd)
            | e :: t' =>
                match escape_item e with
                | Some i => parse t' None (push_item (item_regex i) st)
                | None => Unmodelled
                end
            end
          else if negb (is_special c) then parse t None (push_item (RChar c) st)
          else if Ascii.eqb c "[" then
            match t with
            | c' :: t' =>
                if Ascii.eqb c' "^" then parse t' (Some (true, [])) st
                else parse t (Some (false, [])) st
            | [] => Raise (ReError UnterminatedSet)
            end
          else if Ascii.eqb c "*" || Ascii.eqb c "+" || Ascii.eqb c "?" then
            match fr_seq (ps_cur st) with
            | [] => Raise (ReError NothingToRepeat)
            | i :: items =>
                if is_repeat i then Raise (ReError MultipleRepeat)
                else if starts_with "?" t || starts_with "+" t then Unmodelled
                else
                  let f := ps_cur st in
                  parse t None
                    (PState (Frame (fr_group f) (fr_alts f) (repeat_of c i :: items))
                            (ps_stack st) (ps_groups st))
            end
          else if Ascii.eqb c "." then parse t None (push_item RAny st)
          else if Ascii.eqb c "(" then
            if starts_with "?" t then Unmodelled
            else if Nat.leb max_nesting (length (ps_stack st)) then Unmodelled
            else
              let g := S (ps_groups st) in
              parse t None (PState (Frame g [] []) (ps_cur st :: ps_stack st) g)
          else if Ascii.eqb c ")" then
            match ps_stack st with
            | [] => Raise (ReError UnbalancedParen)
            | up :: stack =>
                let r := RGroup (fr_group (ps_cur st)) (close_frame (ps_cur st)) in
                parse t None
                  (PState (Frame (fr_group up) (fr_alts up) (r :: fr_seq up))
                          stack (ps_groups st))
            end
          else if Ascii.eqb c "|" then
            let f := ps_cur st in
            parse t None
              (PState (Frame (fr_group f) (branch_of (fr_seq f) :: fr_alts f) [])
                      (ps_stack st) (ps_groups st))
          else Unmodelled   (* ^, $ and {: anchors and counted repeats *)
      end
  | Some (negate, items) =>
      match src with
      | [] => Raise (ReError UnterminatedSet)
      | c :: t =>
          if Ascii.eqb c "]" && negb (match items with [] => true | _ => false end)
          then parse t None (push_item (RSet negate (rev items)) st)
          else if Ascii.eqb c "\" then
            match t with
            | [] => Raise (ReError BadEscapeEnd)
            | e :: t' =>
                match escape_item e with
                | Some i =>
                    if starts_with "-" t' then Unmodelled
                    else parse t' (Some (negate, i :: items)) st
                | None => Unmodelled
                end
            end
          else if starts_with "-" t then Unmodelled   (* a range *)
          else parse t (Some (negate, CLit c :: items)) st
      end
  end.

(** [re.compile(pattern)]: the pattern and its number of groups. *)
Definition compile (pattern : string) : result (regex * nat) :=
  parse (chars pattern) None (PState (Frame 0 [] []) [] 0).

(** *** The matcher

    A backtracking matcher in continuation-passing style: the
    continuation is the rest of the pattern, [None] makes the matcher
    try its next choice.  Quantifiers are greedy.  The state is the
    text still to read and the groups captured so far (latest first). *)
Definition caps : Type := list (nat * list ascii).
Definition mres : Type := (list ascii * caps)%type.
Definition kont : Type := list ascii -> caps -> option mres.

Definition item_matches (i : citem) (c : ascii) : bool :=
  match i with
  | CLit a => Ascii.eqb c a
  | CSpace => is_space c
  | CNotSpace => negb (is_space c)
  | CDigit => is_digit c
  | CNotDigit => negb (is_digit c)
  end.

Definition set_matches (negate : bool) (items : list citem) (c : ascii) : bool :=
  xorb negate (existsb (fun i => item_matches i c) items).

Definition orelse {A : Type} (x y : option A) : option A :=
  match x with
  | Some _ => x
  | None => y
  end.

(** The greedy loop of [*]: another round of the body as long as the
    last round consumed text, then the rest of the pattern.  A round
    consumes at least one character, so [fuel] above the length of
    the text is never used up. *)
Fixpoint star_loop (body : list ascii -> caps -> kont -> option mres)
    (fuel : nat) (s : list ascii) (cs : caps) (k : kont) : option mres :=
  match fuel with
  | 0 => k s cs
  | S fuel' =>
      orelse
        (body s cs (fun s' cs' =>
           if Nat.eqb (length s') (length s) then k s' cs'
           else star_loop body fuel' s' cs' k))
        (k s cs)
  end.

Fixpoint rmatch (dotall : bool) (r : regex) (s : list ascii) (cs : caps)
    (k : kont) : option mres :=
  match r with
  | REps => k s cs
  | RChar c =>
      match s with
      | a :: t => if Ascii.eqb a c then k t cs else None
      | [] => None
      end
  | RAny =>
      match s with
      | a :: t => if dotall || negb (Ascii.eqb a "010") then k t cs else None
      | [] => None
      end
  | RSet negate items =>
      match s with
      | a :: t => if set_matches negate items a then k t cs else None
      | [] => None
      end
  | RCat r1 r2 => rmatch dotall r1 s cs (fun s' cs' => rmatch dotall r2 s' cs' k)
  | RAlt r1 r2 => orelse (rmatch dotall r1 s cs k) (rmatch dotall r2 s cs k)
  | RStar r1 => star_loop (rmatch dotall r1) (S (length s)) s cs k
  | RPlus r1 =>
      rmatch dotall r1 s cs (fun s' cs' =>
        star_loop (rmatch dotall r1) (S (length s')) s' cs' k)
  | ROpt r1 => orelse (rmatch dotall r1 s cs k) (k s cs)
  | RGroup n r1 =>
      rmatch dotall r1 s cs (fun s' cs' =>
        k s' ((n, firstn (length s - length s') s) :: cs'))
  end.

(** One attempt at the start of [s].  With [must_advance] an empty
    match is refused, and the matcher backtracks for another one. *)
Definition match_here (dotall : bool) (r : regex) (must_advance : bool)
    (s : list ascii) : option mres :=
  rmatch dotall r s [] (fun s' cs =>
    if must_advance && Nat.eqb (length s') (length s) then None
    else Some (s', cs)).

(** [search]: the leftmost start at which the pattern matches; the text
    skipped before the match, the text after it and the groups.
    [must_advance] holds for the first start only. *)
Fixpoint search (dotall : bool) (r : regex) (must_advance : bool)
    (s : list ascii) : option (list ascii * mres) :=
  match match_here dotall r must_advance s with
  | Some m => Some ([], m)
  | None =>
      match s with
      | [] => None
      | a :: t =>
          match search dotall r false t with
          | Some (skipped, m) => Some (a :: skipped, m)
          | None => None
          end
      end
  end.

(** *** Replacement templates *)
Inductive titem : Type :=
| TLit (c : ascii)
| TGroup (n : nat).

(** A backslash and a digit from 1 to 9, not followed by another digit,
    is a group reference; every character but the backslash stands for
    itself.  Other escapes are outside the fragment. *)
Fixpoint parse_template (groups : nat) (src : list ascii) : result (list titem) :=
  match src with
  | [] => Ok []
  | c :: t =>
      if Ascii.eqb c "\" then
        match t with
        | [] => Raise (ReError BadEscapeEnd)
        | d :: t' =>
            if is_digit d && negb (Ascii.eqb d "0") && negb (match t' with
                                                             | d' :: _ => is_digit d'
                                                             | [] => false
                                                             end)
            then
              let n := nat_of_ascii d - 48 in
              if Nat.ltb groups n then Raise (ReError (InvalidGroupRef n))
              else items <-r parse_template groups t' ; Ok (TGroup n :: items)
            else Unmodelled
        end
      else items <-r parse_template groups t ; Ok (TLit c :: items)
  end.

Fixpoint group_text (n : nat) (cs : caps) : list ascii :=
  match cs with
  | [] => []          (* a group that did not take part is empty *)
  | (m, txt) :: cs' => if Nat.eqb m n then txt else group_text n cs'
  end.

Fixpoint expand (tpl : list titem) (cs : caps) : list ascii :=
  match tpl with
  | [] => []
  | TLit c :: tpl' => c :: expand tpl' cs
  | TGroup n :: tpl' => group_text n cs ++ expand tpl' cs
  end.

(** *** [sub]

    The loop of [pattern.sub] (Python 3.7 and later): search from the end of the last match,
    copy the text skipped, append the expansion, go on after the match;
    after an empty match the next one must advance.  [count = 0] is no
    limit.  [done] counts the replacements made. *)
Fixpoint sub_loop (fuel : nat) (dotall : bool) (r : regex) (tpl : list titem)
    (count done : nat) (must_advance : bool) (s : list ascii) : list ascii :=
  match fuel with
  | 0 => s
  | S fuel' =>
      if negb (Nat.eqb count 0) && Nat.leb count done then s
      else
        match search dotall r must_advance s with
        | None => s
        | Some (skipped, (rest, cs)) =>
            skipped ++ expand tpl cs ++
            sub_loop fuel' dotall r tpl count (S done)
              (Nat.eqb (length skipped + length rest) (length s)) rest
        end
  end.

(** Flags of the calls in the script. *)
Inductive flags : Type :=
| NoFlags
| DOTALL.

Definition dotall_of (f : flags) : bool :=
  match f with
  | DOTALL => true
  | NoFlags => false
  end.

(** [re.sub(pattern, repl, string, count, flags)] with a string [repl]:
    the pattern is compiled, then the template, then the loop runs. *)
Definition sub (pattern repl str : string) (count : nat) (f : flags)
    : result string :=
  p <-r compile pattern ;
  tpl <-r parse_template (snd p) (chars repl) ;
  Ok (text (sub_loop (2 * length (chars str) + 2) (dotall_of f) (fst p) tpl
              count 0 false (chars str))).

(** [re.search(pattern, string, flags) is not None]. *)
Definition found (pattern str : string) (f : flags) : result bool :=
  p <-r compile pattern ;
  Ok (match search (dotall_of f) (fst p) false (chars str) with
      | Some _ => true
      | None => false
      end).

End Re.

(** ** wrap_functions.py, the rewriter *)
Module WrapFunctions.

(** The variables in scope of the f-strings of [wrap_function]. *)
Definition locals (function_name : string) (name : string) : string :=
  if String.eqb name "function_name" then function_name else "".

(** [pattern = rf'...'], with the body of the literal as it is in the
    script. *)
Definition pattern (function_name : string) : string :=
  PyStr.rf (locals function_name)
    "(export async function {function_name}\([^)]*\)[^{{]*\{{\s*)try \{{".

(** [replacement = r'...'] *)
Definition replacement : string :=
  PyStr.raw "\1return withServerActionErrorHandler(async () => {".

(** [catch_pattern = r'...'] *)
Definition catch_pattern : string :=
  PyStr.raw "(\s*)\} catch \(error\) \{[^}]*console\.error\([^)]*\);[^}]*return \{[^}]*success: false,[^}]*error: [^}]*\};(\s*)\}".

(** [catch_replacement = rf'\1}}, ''{function_name}'');\2}}']: the two
    quotes in a row end one literal and start the next, so these are
    three adjacent literals, concatenated: the raw f-string [rf'\1}}, '],
    then ['{function_name}'] and [');\2}}'], which have no prefix. *)
Definition catch_replacement (function_name : string) : string :=
  String.append (PyStr.rf (locals function_name) "\1}}, ")
    (String.append (PyStr.plain "{function_name}") (PyStr.plain ");\2}}")).

Definition wrap_function (content function_name : string) : result string :=
  content <-r Re.sub (pattern function_name) replacement content 0 Re.DOTALL ;
  Re.sub catch_pattern (catch_replacement function_name) content 0 Re.DOTALL.

End WrapFunctions.

(** ** wrap_functions.py, the script *)
Module Script.
Import WrapFunctions.

Definition CR : ascii := "013".
Definition LF : ascii := "010".
Definition STX : ascii := "002".   (* chr(2) *)

(** A file: its characters as stored (under the default codec), and
    whether the process may open it for reading and for writing. *)
Record file : Type := File {
  data : string;
  readable : bool;
  writable : bool
}.

(** The files by path, what was printed so far, and [os.linesep]. *)
Record world : Type := World {
  fs : gmap string file;
  stdout : string;
  linesep : string
}.

(** Programs: state passing over the world, with exceptions. *)
Definition prog (A : Type) : Type := world -> result A * world.

Definition pret {A : Type} (a : A) : prog A := fun w => (Ok a, w).

Definition pbind {A B : Type} (c : prog A) (k : A -> prog B) : prog B :=
  fun w =>
    match c w with
    | (Ok a, w') => k a w'
    | (Raise e, w') => (Raise e, w')
    | (Unmodelled, w') => (Unmodelled, w')
    end.

Definition lift {A : Type} (r : result A) : prog A := fun w => (r, w).

Notation "x <-p c ; k" := (pbind c (fun x => k))
  (at level 100, c at next level, right associativity).

(** Text mode, reading.  [open(filename, 'r')] leaves [newline] at its
    default, [None]: universal newlines, lines ending in [\n], [\r] or
    [\r\n] are given to the caller with [\n]. *)
Fixpoint newlines_in (s : list ascii) : list ascii :=
  match s with
  | [] => []
  | c :: t =>
      if Ascii.eqb c CR then
        match t with
        | c' :: t' => if Ascii.eqb c' LF then LF :: newlines_in t' else LF :: newlines_in t
        | [] => [LF]
        end
      else c :: newlines_in t
  end.

(** Text mode, writing.  With [newline=None] every [\n] written is
    stored as [os.linesep]. *)
Fixpoint newlines_out (sep : list ascii) (s : list ascii) : list ascii :=
  match s with
  | [] => []
  | c :: t => if Ascii.eqb c LF then sep ++ newlines_out sep t else c :: newlines_out sep t
  end.

(** [with open(filename, 'r') as f: content = f.read()] *)
Definition read_file (filename : string) : prog string :=
  fun w =>
    match fs w !! filename with
    | None => (Raise FileNotFoundError, w)
    | Some f =>
        if readable f then (Ok (text (newlines_in (chars (data f)))), w)
        else (Raise PermissionError, w)
    end.

(** [with open(filename, 'w') as f: f.write(content)]: the file is
    created or truncated when it is opened, then written. *)
Definition write_file (filename content : string) : prog unit :=
  fun w =>
    let stored := text (newlines_out (chars (linesep w)) (chars content)) in
    match fs w !! filename with
    | None =>
        (Ok tt, World (<[filename := File stored true true]> (fs w)) (stdout w) (linesep w))
    | Some f =>
        if writable f then
          (Ok tt, World (<[filename := File stored (readable f) (writable f)]> (fs w))
                        (stdout w) (linesep w))
        else (Raise PermissionError, w)
    end.

(** [print(line)] *)
Definition print (line : string) : prog unit :=
  fun w =>
    (Ok tt, World (fs w) (String.append (stdout w) (String.append line (String LF "")))
                  (linesep w)).

(** [str(n)] *)
Definition str_of_nat (n : nat) : string := NilEmpty.string_of_uint (Nat.to_uint n).

(** [sys.argv[1]] *)
Definition argv_1 (argv : list string) : prog string :=
  match argv with
  | _ :: a :: _ => pret a
  | _ => lift (Raise IndexError)
  end.

(** [for x in xs: s = body(x, s)], for a body that assigns to one
    variable. *)
Fixpoint for_each {A S : Type} (body : A -> S -> result S) (xs : list A) (s : S)
    : result S :=
  match xs with
  | [] => Ok s
  | x :: xs' => s <-r body x s ; for_each body xs' s
  end.

(** [for func in functions: content = wrap_function(content, func)] *)
Definition wrap_all (functions : list string) (content : string) : result string :=
  for_each (fun func content => wrap_function content func) functions content.

(** The fields of the f-string printed at the end. *)
Definition summary_fields (functions : list string) (filename : string)
    (field : string) : string :=
  if String.eqb field "len(functions)" then str_of_nat (length functions)
  else if String.eqb field "filename" then filename
  else "".

(** The script, run with [sys.argv = argv].  The f-string of [print] has
    no backslash, so it reads as a raw one does. *)
Definition main (argv : list string) : prog unit :=
  filename <-p argv_1 argv ;
  let functions := drop 2 argv in
  content <-p read_file filename ;
  content <-p lift (wrap_all functions content) ;
  _ <-p write_file filename content ;
  print (PyStr.rf (summary_fields functions filename)
           "Wrapped {len(functions)} functions in {filename}").

End Script.

(** ** Vocabulary of the statements *)
Module Spec.
Import WrapFunctions Script.

(** A name free of the characters that are special in a pattern. *)
Definition plain_chars (cs : list ascii) : bool :=
  forallb (fun c => negb (Re.is_special c)) cs.

Definition plain_name (function_name : string) : bool :=
  plain_chars (chars function_name).

Fixpoint prefixb (p s : list ascii) : bool :=
  match p, s with
  | [], _ => true
  | a :: p', b :: s' => Ascii.eqb a b && prefixb p' s'
  | _ :: _, [] => false
  end.

Fixpoint occursb (needle hay : list ascii) : bool :=
  prefixb needle hay ||
  match hay with
  | [] => false
  | _ :: t => occursb needle t
  end.

(** [needle in hay] *)
Definition occurs_in (needle hay : string) : bool :=
  occursb (chars needle) (chars hay).

(** The rewriter in the spec's words for Step B, "it matches the first
    block in the file satisfying the failure-handling shape": the
    failure-block substitution made once. *)
Definition wrap_function_first_block (content function_name : string)
    : result string :=
  content <-r Re.sub (pattern function_name) replacement content 0 Re.DOTALL ;
  Re.sub catch_pattern (catch_replacement function_name) content 1 Re.DOTALL.

(** What Step A puts in place of the guarded-block opener, and what
    Step B writes in place of a failure block (after the whitespace it
    keeps). *)
Definition wrapper_opener : string :=
  "return withServerActionErrorHandler(async () => {".

Definition written_closer : string :=
  String.append "}, {function_name});" (String STX "}}").

(** *** Files used as examples *)
Fixpoint unlines (ls : list string) : string :=
  match ls with
  | [] => ""
  | l :: ls' => String.append l (String LF (unlines ls'))
  end.

Definition posix : string := String LF "".
Definition windows : string := String CR (String LF "").

Definition one_file (sep filename content : string) : world :=
  World {[ filename := File content true true ]} "" sep.

Definition save_input : string :=
  "export async function save(x) { try { doWork(x); } catch (error) { console.error(e); return { success: false, error: e }; } }".

Definition save_output : string :=
  String.append "export async function save(x) { "
    (String.append wrapper_opener
       (String.append " doWork(x);"
          (String.append " " (String.append written_closer " }")))).

Definition load_input : string := unlines [
  "export async function load(id: string): Promise<Result> {";
  "  try {";
  "    const row = await db.find(id);";
  "    return { success: true, data: row };";
  "  } catch (error) {";
  "    console.error('failed', error);";
  "    return { success: false, error: 'failed' };";
  "  }";
  "}" ]%string.

Definition load_output : string := unlines [
  "export async function load(id: string): Promise<Result> {";
  String.append "  " wrapper_opener;
  "    const row = await db.find(id);";
  "    return { success: true, data: row };";
  String.append "  " written_closer;
  "}" ]%string.

Definition remove_input : string :=
  "export async function remove(id) { try { drop(id); } catch (error) { console.error(error); return { success: false, error: error }; } }".


Definition two_blocks : string := unlines [
  "export async function first(a) {";
  "  try {";
  "    one(a);";
  "  } catch (error) {";
  "    console.error(error);";
  "    return { success: false, error: 'first' };";
  "  }";
  "}";
  "export async function second(b) {";
  "  try {";
  "    two(b);";
  "  } catch (error) {";
  "    console.error(error);";
  "    return { success: false, error: 'second' };";
  "  }";
  "}" ]%string.

(** [two_blocks] after the rewrite for [second]. *)
Definition two_blocks_output : string := unlines [
  "export async function first(a) {";
  "  try {";
  "    one(a);";
  String.append "  " written_closer;
  "}";
  "export async function second(b) {";
  String.append "  " wrapper_opener;
  "    two(b);";
  String.append "  " written_closer;
  "}" ]%string.

(** [two_blocks] after the rewrite for [second], then for [first]. *)
Definition two_blocks_both : string := unlines [
  "export async function first(a) {";
  String.append "  " wrapper_opener;
  "    one(a);";
  String.append "  " written_closer;
  "}";
  "export async function second(b) {";
  String.append "  " wrapper_opener;
  "    two(b);";
  String.append "  " written_closer;
  "}" ]%string.

(** [two_blocks] after Step A for [second], with the first failure block
    of the file rewritten and no other. *)
Definition two_blocks_first_only : string := unlines [
  "export async function first(a) {";
  "  try {";
  "    one(a);";
  String.append "  " written_closer;
  "}";
  "export async function second(b) {";
  String.append "  " wrapper_opener;
  "    two(b);";
  "  } catch (error) {";
  "    console.error(error);";
  "    return { success: false, error: 'second' };";
  "  }";
  "}" ]%string.

(** [two_blocks] before its first failure block and after it, and the
    whitespace the two groups of the failure pattern capture there. *)
Definition two_blocks_before : string :=
  String.append "export async function first(a) {"
    (String LF (String.append "  try {" (String LF "    one(a);"))).

Definition two_blocks_after : string :=
  String LF (unlines [
    "}";
    "export async function second(b) {";
    "  try {";
    "    two(b);";
    "  } catch (error) {";
    "    console.error(error);";
    "    return { success: false, error: 'second' };";
    "  }";
    "}" ]%string).

Definition block_indent : list ascii := [LF; " "; " "].

(** A file without a failure block. *)
Definition ping_file : string := "export function ping() { return 1; }".

(** A file with Windows line ends, and the same with Unix line ends. *)
Definition crlf_file : string :=
  String.append "const a = 1;" (String CR (String LF
    (String.append "const b = 2;" (String CR (String LF ""))))).

Definition lf_file : string := unlines ["const a = 1;"; "const b = 2;"]%string.

End Spec.

(** ** Definitions used in the proofs *)
Module Shape.
Import Re WrapFunctions.

(** A run of literal characters in front of [r]. *)
Definition lits (cs : list ascii) (r : regex) : regex :=
  fold_right (fun c acc => RCat (RChar c) acc) r cs.

(** The parser state after reading the literal characters [cs]. *)
Definition push_lits (cs : list ascii) (st : pstate) : pstate :=
  PState (Frame (fr_group (ps_cur st)) (fr_alts (ps_cur st))
                (rev (map RChar cs) ++ fr_seq (ps_cur st)))
         (ps_stack st) (ps_groups st).

(** The entry pattern after the function name, inside group 1. *)
Definition entry_tail : regex :=
  RCat (RChar "(") (RCat (RStar (RSet true [CLit ")"])) (RCat (RChar ")")
    (RCat (RStar (RSet true [CLit "{"])) (RCat (RChar "{")
      (RCat (RStar (RSet false [CSpace])) REps))))).

(** The entry pattern for a name of literal characters. *)
Definition entry_regex (name : list ascii) : regex :=
  RCat (RGroup 1 (lits (chars "export async function ") (lits name entry_tail)))
       (lits (chars "try {") REps).

Definition entry_template : list titem :=
  TGroup 1 :: map TLit (chars Spec.wrapper_opener).

Definition catch_regex : regex :=
  Eval vm_compute in
    match compile catch_pattern with
    | Ok (r, _) => r
    | _ => REps
    end.

Definition catch_template : list titem :=
  TGroup 1 :: map TLit (chars Spec.written_closer).

Definition is_suffix (s' s : list ascii) : Prop := exists pre, s = pre ++ s'.

(** A matcher that calls its continuation on what is left of the text. *)
Definition calls_on_suffix
    (body : list ascii -> caps -> kont -> option mres) : Prop :=
  forall s cs k m, body s cs k = Some m ->
    exists s' cs', is_suffix s' s /\ k s' cs' = Some m.

(** A matcher that looks at its continuation on shorter texts only. *)
Definition respects_length
    (body : list ascii -> caps -> kont -> option mres) : Prop :=
  forall s cs k1 k2,
    (forall s' cs', length s' <= length s -> k1 s' cs' = k2 s' cs') ->
    body s cs k1 = body s cs k2.

(** The rounds [sub_loop] can still make on [s]. *)
Definition sub_budget (must_advance : bool) (s : list ascii) : nat :=
  2 * length s + (if must_advance then 1 else 2).

(** The two statements of [wrap_function]. *)
Definition step_a (function_name content : string) : result string :=
  Re.sub (pattern function_name) replacement content 0 Re.DOTALL.

Definition step_b (function_name content : string) : result string :=
  Re.sub catch_pattern (catch_replacement function_name) content 0 Re.DOTALL.

(** The fold of the spec: the single-name transform over the names. *)
Definition fold_names (functions : list string) (content : string)
    : result string :=
  fold_left (fun acc func => rbind acc (fun c => wrap_function c func))
            functions (Ok content).

Definition summary (count : nat) (filename : string) : string :=
  String.append "Wrapped "
    (String.append (Script.str_of_nat count)
       (String.append " functions in " filename)).

End Shape.

(** ** More vocabulary *)
Module Terms.
Import Re WrapFunctions Script Shape.

(** The text a declaration of [function_name] starts with, and the text a
    failure block starts with. *)
Definition declaration (function_name : string) : string :=
  String.append "export async function " (String.append function_name "(").

Definition catch_opener : string := "} catch (error) {".

Definition no_cr (c : ascii) : bool := negb (Ascii.eqb c CR).

(** Whether group [n] is in a pattern. *)
Fixpoint has_group (n : nat) (r : Re.regex) : bool :=
  match r with
  | Re.RGroup m r1 => Nat.eqb m n || has_group n r1
  | Re.RCat r1 r2 | Re.RAlt r1 r2 => has_group n r1 || has_group n r2
  | Re.RStar r1 | Re.RPlus r1 | Re.ROpt r1 => has_group n r1
  | _ => false
  end.

(** Captured texts made of characters that pass [q]. *)
Definition caps_all (q : ascii -> bool) (cs : Re.caps) : Prop :=
  Forall (fun e => forallb q (snd e) = true) cs.

Definition keeps_chars (q : ascii -> bool)
    (body : list ascii -> Re.caps -> Re.kont -> option Re.mres) : Prop :=
  forall s cs k m,
    forallb q s = true -> caps_all q cs -> body s cs k = Some m ->
    exists s' cs', is_suffix s' s /\ caps_all q cs' /\ k s' cs' = Some m.

Definition template_all (q : ascii -> bool) (tpl : list Re.titem) : Prop :=
  Forall (fun i => match i with Re.TLit c => q c = true | Re.TGroup _ => True end) tpl.

(** A matcher that leaves the text of group [n] as it is. *)
Definition keeps_group (n : nat)
    (body : list ascii -> Re.caps -> Re.kont -> option Re.mres) : Prop :=
  forall s cs k m, body s cs k = Some m ->
    exists s' cs',
      is_suffix s' s /\ Re.group_text n cs' = Re.group_text n cs /\ k s' cs' = Some m.

(** Texts without the character [c]. *)
Definition free_of (c : ascii) (l : list ascii) : bool :=
  forallb (fun a => negb (Ascii.eqb a c)) l.

(** The failure pattern, as the parser reads [catch_pattern]. *)
Definition catch_explicit : Re.regex :=
  let spaces := Re.RCat (Re.RStar (Re.RSet false [Re.CSpace])) Re.REps in
  let no_brace := Re.RStar (Re.RSet true [Re.CLit "}"]) in
  Re.RCat (Re.RGroup 1 spaces)
    (lits (chars catch_opener)
      (Re.RCat no_brace (lits (chars "console.error(")
        (Re.RCat (Re.RStar (Re.RSet true [Re.CLit ")"])) (lits (chars ");")
          (Re.RCat no_brace (lits (chars "return {")
            (Re.RCat no_brace (lits (chars "success: false,")
              (Re.RCat no_brace (lits (chars "error: ")
                (Re.RCat no_brace (lits (chars "};")
                  (Re.RCat (Re.RGroup 2 spaces)
                     (Re.RCat (Re.RChar "}") Re.REps))))))))))))))).

(** *** More files used as examples *)

(** A file that declares [saveAll] and catches [e]: neither the
    declaration of [save] nor a failure block as the script knows it. *)
Definition save_all_file : string :=
  "export async function saveAll(x) { try { go(x); } catch (e) { console.error(e); return { success: false, error: e }; } }".

(** [save_input] after its guarded-block opener. *)
Definition save_rest : string :=
  " doWork(x); } catch (error) { console.error(e); return { success: false, error: e }; } }".

(** Two files, one of them read-only. *)
Definition two_files (content other : string) : world :=
  World (<[ "other.ts"%string := File other true false ]>
           {[ "actions.ts"%string := File content true true ]})
        "" Spec.posix.

Definition read_only (content : string) : world :=
  World {[ "actions.ts"%string := File content true false ]} "" Spec.posix.

End Terms.

(** * Properties *)

(** ** Strings and character lists *)
Section TextFacts.

Lemma text_chars (s : string) : text (chars s) = s.
Proof. apply string_of_list_ascii_of_string. Qed.

Lemma chars_text (l : list ascii) : chars (text l) = l.
Proof. apply list_ascii_of_string_of_list_ascii. Qed.

Lemma chars_append (s1 s2 : string) :
  chars (String.append s1 s2) = chars s1 ++ chars s2.
Proof.
  unfold chars. induction s1 as [|c s1 IH]; [reflexivity|].
  change (c :: list_ascii_of_string (String.append s1 s2)
          = c :: (list_ascii_of_string s1 ++ list_ascii_of_string s2)).
  now rewrite IH.
Qed.

Lemma text_app (l1 l2 : list ascii) :
  text (l1 ++ l2) = String.append (text l1) (text l2).
Proof.
  unfold text. induction l1 as [|c l1 IH]; [reflexivity|].
  change (String c (string_of_list_ascii (l1 ++ l2))
          = String c (String.append (string_of_list_ascii l1) (string_of_list_ascii l2))).
  now rewrite IH.
Qed.

Lemma chars_inj (s1 s2 : string) : chars s1 = chars s2 -> s1 = s2.
Proof.
  intros H. rewrite <- (text_chars s1), <- (text_chars s2). now rewrite H.
Qed.

Lemma append_assoc (s1 s2 s3 : string) :
  String.append (String.append s1 s2) s3 = String.append s1 (String.append s2 s3).
Proof.
  apply chars_inj. rewrite !chars_append. now rewrite app_assoc.
Qed.

Lemma prefixb_app (p s : list ascii) : Spec.prefixb p (p ++ s) = true.
Proof.
  induction p as [|a p IH]; [reflexivity|]. cbn. now rewrite Ascii.eqb_refl.
Qed.

Lemma occursb_app (pre needle post : list ascii) :
  Spec.occursb needle (pre ++ needle ++ post) = true.
Proof.
  induction pre as [|a pre IH].
  - cbn [app]. destruct (needle ++ post) eqn:E; cbn [Spec.occursb];
      rewrite <- E, prefixb_app; reflexivity.
  - cbn [app Spec.occursb]. rewrite IH. apply orb_true_r.
Qed.

End TextFacts.

(** ** The string literals of the script *)
Section Literals.
Import WrapFunctions.

Lemma pattern_eq (f : string) :
  pattern f
  = String.append "(export async function "
      (String.append f "\([^)]*\)[^{]*\{\s*)try \{").
Proof.
  unfold pattern, PyStr.rf.
  apply chars_inj. rewrite chars_text, !chars_append.
  reflexivity.
Qed.

(** The name is not part of the text Step B writes. *)
Lemma catch_replacement_const (f : string) :
  catch_replacement f = String.append "\1" Spec.written_closer.
Proof. reflexivity. Qed.

Lemma summary_line (functions : list string) (filename : string) :
  PyStr.rf (Script.summary_fields functions filename)
    "Wrapped {len(functions)} functions in {filename}"
  = Shape.summary (length functions) filename.
Proof.
  unfold PyStr.rf, Shape.summary.
  apply chars_inj. rewrite chars_text, !chars_append.
  cbn. now rewrite app_nil_r.
Qed.

End Literals.

(** ** The pattern parser *)
Section ParserFacts.
Import Re WrapFunctions Shape.

Lemma not_special_backslash (c : ascii) :
  is_special c = false -> Ascii.eqb c "\" = false.
Proof.
  unfold is_special, special_chars. cbn [existsb].
  intros H. repeat (apply orb_false_elim in H; destruct H as [? H]). assumption.
Qed.

(** Characters that are not special are read as literals, whatever
    follows them. *)
Lemma parse_plain (cs rest : list ascii) (st : pstate) :
  Spec.plain_chars cs = true ->
  parse (cs ++ rest) None st = parse rest None (push_lits cs st).
Proof.
  revert st. induction cs as [|c cs IH]; intros st Hp.
  - destruct st as [[g a s] k n]. reflexivity.
  - unfold Spec.plain_chars in Hp. cbn [forallb] in Hp.
    apply andb_prop in Hp. destruct Hp as [Hc Hcs].
    apply negb_true_iff in Hc.
    cbn [app parse]. rewrite (not_special_backslash c Hc), Hc. cbn [negb].
    rewrite (IH _ Hcs). f_equal.
    destruct st as [[g a s] k n]. unfold push_lits, push_item. cbn.
    now rewrite <- app_assoc.
Qed.

Lemma branch_of_lits (cs : list ascii) (items : list regex) (acc : regex) :
  fold_left (fun acc i => RCat i acc) (rev (map RChar cs) ++ items) acc
  = fold_left (fun acc i => RCat i acc) items (lits cs acc).
Proof.
  rewrite fold_left_app. f_equal.
  revert acc. induction cs as [|c cs IH]; intros acc; [reflexivity|].
  cbn [map rev]. rewrite fold_left_app. cbn [fold_left]. rewrite IH. reflexivity.
Qed.

(** The rest of the entry pattern, read with any items before it. *)
Lemma parse_entry_tail (items : list regex) :
  parse (chars "\([^)]*\)[^{]*\{\s*)try \{") None
        (PState (Frame 1 [] items) [Frame 0 [] []] 1)
  = Ok (RCat (RGroup 1 (fold_left (fun acc i => RCat i acc) items entry_tail))
             (lits (chars "try {") REps), 1).
Proof. reflexivity. Qed.

Lemma parse_pattern_open (f : string) :
  compile (pattern f)
  = parse (chars "export async function " ++ chars f
             ++ chars "\([^)]*\)[^{]*\{\s*)try \{")
          None (PState (Frame 1 [] []) [Frame 0 [] []] 1).
Proof.
  rewrite pattern_eq. unfold compile. rewrite !chars_append. reflexivity.
Qed.

(** For a name without special characters the entry pattern compiles,
    with the name as literal text. *)
Lemma compile_pattern_plain (f : string) :
  Spec.plain_name f = true ->
  compile (pattern f) = Ok (entry_regex (chars f), 1).
Proof.
  intros Hp. rewrite parse_pattern_open.
  rewrite parse_plain by reflexivity.
  rewrite parse_plain by exact Hp.
  unfold push_lits. cbn [ps_cur ps_stack ps_groups fr_group fr_alts fr_seq].
  rewrite parse_entry_tail, !branch_of_lits. reflexivity.
Qed.

(** The parser never forgets a group it has opened. *)
Lemma parse_groups (n : nat) :
  forall src set st r g,
    length src <= n -> parse src set st = Ok (r, g) -> ps_groups st <= g.
Proof.
  induction n as [|n IH]; intros src set st r g Hn H.
  - destruct src; [|cbn in Hn; lia].
    destruct set as [[neg items]|]; cbn [parse] in H; [discriminate|].
    destruct (ps_stack st); [|discriminate]. injection H as _ <-. lia.
  - destruct src as [|c t].
    + destruct set as [[neg items]|]; cbn [parse] in H; [discriminate|].
      destruct (ps_stack st); [|discriminate]. injection H as _ <-. lia.
    + cbn [length] in Hn.
      destruct set as [[neg items]|]; cbn [parse] in H.
      * destruct (Ascii.eqb c "]" && _).
        { apply IH in H; [exact H | lia]. }
        destruct (Ascii.eqb c "\").
        { destruct t as [|e t']; [discriminate|].
          destruct (escape_item e); [|discriminate].
          destruct (starts_with "-" t'); [discriminate|].
          apply IH in H; [exact H | cbn [length] in Hn; lia]. }
        destruct (starts_with "-" t); [discriminate|].
        apply IH in H; [exact H | lia].
      * destruct (Ascii.eqb c "\").
        { destruct t as [|e t']; [discriminate|].
          destruct (escape_item e); [|discriminate].
          apply IH in H; [exact H | cbn [length] in Hn; lia]. }
        destruct (negb (is_special c)).
        { apply IH in H; [exact H | lia]. }
        destruct (Ascii.eqb c "[").
        { destruct t as [|c' t']; [discriminate|].
          destruct (Ascii.eqb c' "^");
            (apply IH in H; [exact H | cbn [length] in *; lia]). }
        destruct (Ascii.eqb c "*" || Ascii.eqb c "+" || Ascii.eqb c "?").
        { destruct (fr_seq (ps_cur st)) as [|i items]; [discriminate|].
          destruct (is_repeat i); [discriminate|].
          destruct (starts_with "?" t || starts_with "+" t); [discriminate|].
          apply IH in H; [exact H | lia]. }
        destruct (Ascii.eqb c ".").
        { apply IH in H; [exact H | lia]. }
        destruct (Ascii.eqb c "(").
        { destruct (starts_with "?" t); [discriminate|].
          destruct (Nat.leb max_nesting _); [discriminate|].
          apply IH in H; [cbn [ps_groups] in H; lia | lia]. }
        destruct (Ascii.eqb c ")").
        { destruct (ps_stack st); [discriminate|].
          apply IH in H; [exact H | lia]. }
        destruct (Ascii.eqb c "|"); [|discriminate].
        apply IH in H; [exact H | lia].
Qed.

(** Whatever the name, an entry pattern that compiles has group 1. *)
Lemma compile_pattern_groups (f : string) (r : regex) (g : nat) :
  compile (pattern f) = Ok (r, g) -> 1 <= g.
Proof.
  rewrite parse_pattern_open. intros H.
  apply (parse_groups _ _ _ _ _ _ (le_n _)) in H. exact H.
Qed.

(** The parser gives up at the group that would be nested deeper than
    [max_nesting]. *)
Lemma parse_nested_too_deep (k : nat) :
  forall (rest : list ascii) (st : pstate),
    max_nesting <= length (ps_stack st) + k ->
    parse (repeat "(" (S k) ++ rest) None st = Unmodelled.
Proof.
  induction k as [|k IH]; intros rest st Hk.
  - cbn [repeat app]. cbn [parse]. 
    change (Ascii.eqb "(" "\") with false. cbv iota.
    change (negb (is_special "(")) with false. cbv iota.
    change (Ascii.eqb "(" "[") with false. cbv iota.
    change (Ascii.eqb "(" "*" || Ascii.eqb "(" "+" || Ascii.eqb "(" "?") with false.
    change (Ascii.eqb "(" ".") with false. change (Ascii.eqb "(" "(") with true.
    cbv iota.
    destruct (starts_with "?" rest); [reflexivity|].
    replace (Nat.leb max_nesting (length (ps_stack st))) with true; [reflexivity|].
    symmetry. apply Nat.leb_le. lia.
  - change (repeat "(" (S (S k)) ++ rest) with ("(" :: repeat "(" (S k) ++ rest).
    cbn [parse].
    change (Ascii.eqb "(" "\") with false. cbv iota.
    change (negb (is_special "(")) with false. cbv iota.
    change (Ascii.eqb "(" "[") with false. cbv iota.
    change (Ascii.eqb "(" "*" || Ascii.eqb "(" "+" || Ascii.eqb "(" "?") with false.
    change (Ascii.eqb "(" ".") with false. change (Ascii.eqb "(" "(") with true.
    cbv iota.
    change (starts_with "?" (repeat "(" (S k) ++ rest)) with false. cbv iota.
    destruct (Nat.leb max_nesting (length (ps_stack st))); [reflexivity|].
    apply IH. cbn [ps_stack length]. lia.
Qed.

(** A name that opens [max_nesting] groups or more, one inside the other,
    is outside the model, whatever follows. *)
Lemma compile_nested_name (n : nat) (rest : string) :
  max_nesting <= n ->
  compile (pattern (String.append (text (repeat "(" n)) rest)) = Unmodelled.
Proof.
  intros Hn. destruct n as [|k]; [unfold max_nesting in Hn; lia|].
  rewrite parse_pattern_open, chars_append, chars_text.
  rewrite parse_plain by reflexivity.
  rewrite <- !app_assoc. apply parse_nested_too_deep.
  unfold push_lits. cbn [ps_stack length]. lia.
Qed.

Lemma compile_catch_pattern : compile catch_pattern = Ok (catch_regex, 2).
Proof. reflexivity. Qed.

Lemma replacement_template (g : nat) :
  1 <= g -> parse_template g (chars replacement) = Ok entry_template.
Proof.
  intros Hg.
  change (parse_template g (chars replacement))
    with (if Nat.ltb g 1 then Raise (ReError (InvalidGroupRef 1))
          else Ok entry_template).
  destruct (Nat.ltb_spec g 1); [lia|reflexivity].
Qed.

(** The template of Step B: group 1, then fixed text; [chr(2)] is one of
    its characters and group 2 is not used. *)
Lemma catch_template_ok (f : string) :
  parse_template 2 (chars (catch_replacement f)) = Ok catch_template.
Proof. reflexivity. Qed.

End ParserFacts.

(** ** The matcher *)
Section MatcherFacts.
Import Re WrapFunctions Shape.

Lemma is_suffix_refl (s : list ascii) : is_suffix s s.
Proof. now exists []. Qed.

Lemma is_suffix_tail (a : ascii) (s : list ascii) : is_suffix s (a :: s).
Proof. now exists [a]. Qed.

Lemma is_suffix_trans (s1 s2 s3 : list ascii) :
  is_suffix s1 s2 -> is_suffix s2 s3 -> is_suffix s1 s3.
Proof.
  intros [p1 ->] [p2 ->]. exists (p2 ++ p1). now rewrite <- app_assoc.
Qed.

Lemma is_suffix_length (s' s : list ascii) :
  is_suffix s' s -> length s' <= length s.
Proof. intros [p ->]. rewrite length_app. lia. Qed.

Lemma orelse_some {A : Type} (x y : option A) (m : A) :
  orelse x y = Some m -> x = Some m \/ (x = None /\ y = Some m).
Proof. destruct x; cbn; intros H; [left|right]; auto. Qed.

Lemma star_loop_suffix body :
  calls_on_suffix body -> forall fuel, calls_on_suffix (star_loop body fuel).
Proof.
  intros Hb fuel. induction fuel as [|fuel IH]; intros s cs k m H.
  - cbn in H. eauto using is_suffix_refl.
  - cbn in H. apply orelse_some in H. destruct H as [H|[_ H]].
    + apply Hb in H. destruct H as (s1 & cs1 & Hs1 & H).
      destruct (Nat.eqb (length s1) (length s)).
      * eauto.
      * apply IH in H. destruct H as (s2 & cs2 & Hs2 & H).
        eauto using is_suffix_trans.
    + eauto using is_suffix_refl.
Qed.

(** The matcher hands to the rest of the pattern what is left of the text. *)
Lemma rmatch_suffix (d : bool) (r : regex) : calls_on_suffix (rmatch d r).
Proof.
  induction r; intros s cs k m H; cbn [rmatch] in H.
  - eauto using is_suffix_refl.
  - destruct s as [|a t]; [discriminate|]. destruct (Ascii.eqb a c); [|discriminate].
    eauto using is_suffix_tail.
  - destruct s as [|a t]; [discriminate|].
    destruct (d || negb (Ascii.eqb a "010")); [|discriminate].
    eauto using is_suffix_tail.
  - destruct s as [|a t]; [discriminate|].
    destruct (set_matches negate items a); [|discriminate].
    eauto using is_suffix_tail.
  - apply IHr1 in H. destruct H as (s1 & cs1 & Hs1 & H).
    apply IHr2 in H. destruct H as (s2 & cs2 & Hs2 & H).
    eauto using is_suffix_trans.
  - apply orelse_some in H. destruct H as [H|[_ H]]; eauto.
  - apply (star_loop_suffix _ IHr) in H. exact H.
  - apply IHr in H. destruct H as (s1 & cs1 & Hs1 & H).
    apply (star_loop_suffix _ IHr) in H. destruct H as (s2 & cs2 & Hs2 & H).
    eauto using is_suffix_trans.
  - apply orelse_some in H. destruct H as [H|[_ H]]; eauto using is_suffix_refl.
  - apply IHr in H. destruct H as (s1 & cs1 & Hs1 & H). eauto.
Qed.

Lemma star_loop_ext body :
  respects_length body -> forall fuel, respects_length (star_loop body fuel).
Proof.
  intros Hb fuel. induction fuel as [|fuel IH]; intros s cs k1 k2 Hk; cbn [star_loop].
  - apply Hk. lia.
  - rewrite (Hk s cs) by lia. f_equal. apply Hb. intros s' cs' Hl.
    destruct (Nat.eqb (length s') (length s)); [now apply Hk|].
    apply IH. intros s2 cs2 Hl2. apply Hk. lia.
Qed.

Lemma rmatch_ext (d : bool) (r : regex) : respects_length (rmatch d r).
Proof.
  induction r; intros s cs k1 k2 Hk; cbn [rmatch].
  - apply Hk. lia.
  - destruct s as [|a t]; [reflexivity|]. destruct (Ascii.eqb a c); [|reflexivity].
    apply Hk. cbn. lia.
  - destruct s as [|a t]; [reflexivity|].
    destruct (d || negb (Ascii.eqb a "010")); [|reflexivity]. apply Hk. cbn. lia.
  - destruct s as [|a t]; [reflexivity|].
    destruct (set_matches negate items a); [|reflexivity]. apply Hk. cbn. lia.
  - apply IHr1. intros s' cs' Hl. apply IHr2. intros s2 cs2 Hl2. apply Hk. lia.
  - rewrite (IHr1 s cs k1 k2 Hk), (IHr2 s cs k1 k2 Hk). reflexivity.
  - now apply star_loop_ext.
  - apply IHr. intros s' cs' Hl. apply star_loop_ext; [exact IHr|].
    intros s2 cs2 Hl2. apply Hk. lia.
  - rewrite (IHr s cs k1 k2 Hk), (Hk s cs) by lia. reflexivity.
  - apply IHr. intros s' cs' Hl. apply Hk. lia.
Qed.

(** The fuel of [star_loop] is never used up: any fuel above the length
    of the text gives the same result. *)
Lemma star_loop_fuel body :
  respects_length body ->
  forall n s cs k fuel1 fuel2,
    length s <= n -> length s < fuel1 -> length s < fuel2 ->
    star_loop body fuel1 s cs k = star_loop body fuel2 s cs k.
Proof.
  intros Hb. induction n as [|n IH]; intros s cs k fuel1 fuel2 Hn H1 H2;
    (destruct fuel1 as [|fuel1]; [lia|]); (destruct fuel2 as [|fuel2]; [lia|]);
    cbn [star_loop]; f_equal; apply Hb; intros s' cs' Hl;
    destruct (Nat.eqb (length s') (length s)) eqn:E; try reflexivity;
    apply Nat.eqb_neq in E.
  - lia.
  - apply IH; lia.
Qed.

Lemma rmatch_star_fuel (d : bool) (r : regex) s cs k (fuel : nat) :
  length s < fuel ->
  rmatch d (RStar r) s cs k = star_loop (rmatch d r) fuel s cs k.
Proof.
  intros H. cbn [rmatch].
  apply (star_loop_fuel _ (rmatch_ext d r) (length s)); lia.
Qed.

Lemma match_here_suffix d r ma s rest cs :
  match_here d r ma s = Some (rest, cs) ->
  is_suffix rest s /\ (ma = true -> length rest < length s).
Proof.
  unfold match_here. intros H. apply rmatch_suffix in H.
  destruct H as (s' & cs' & Hs & H).
  destruct ma; cbn in H.
  - destruct (Nat.eqb (length s') (length s)) eqn:E; [discriminate|].
    injection H as -> ->. split; [assumption|]. intros _.
    apply Nat.eqb_neq in E. apply is_suffix_length in Hs. lia.
  - injection H as -> ->. split; [assumption|discriminate].
Qed.

(** What [search] finds: the text is the part skipped, the match and the
    rest, and the pattern matches where the part skipped ends. *)
Lemma search_split d r ma s skipped rest cs :
  search d r ma s = Some (skipped, (rest, cs)) ->
  exists matched, s = skipped ++ matched ++ rest
    /\ match_here d r (ma && match skipped with [] => true | _ => false end)
         (matched ++ rest) = Some (rest, cs)
    /\ (ma = true -> skipped = [] -> matched <> []).
Proof.
  assert (Hhere : forall ma s, match_here d r ma s = Some (rest, cs) ->
            exists matched, s = [] ++ matched ++ rest
              /\ match_here d r (ma && true) (matched ++ rest) = Some (rest, cs)
              /\ (ma = true -> @nil ascii = [] -> matched <> [])).
  { intros ma0 s0 E. destruct (match_here_suffix _ _ _ _ _ _ E) as [[pre Hp] Hl].
    exists pre. cbn [app]. rewrite andb_true_r, <- Hp.
    split; [reflexivity|]. split; [assumption|].
    intros Hma _ ->. specialize (Hl Hma). cbn [app] in Hp. subst s0. lia. }
  revert ma skipped. induction s as [|a t IH]; intros ma skipped H; cbn [search] in H.
  - destruct (match_here d r ma []) as [m|] eqn:E; [|discriminate].
    injection H as <- ->. now apply Hhere.
  - destruct (match_here d r ma (a :: t)) as [m|] eqn:E.
    + injection H as <- ->. now apply Hhere.
    + destruct (search d r false t) as [[sk m]|] eqn:Es; [|discriminate].
      injection H as <- ->. apply IH in Es. destruct Es as (matched & -> & Hm & _).
      exists matched. cbn [andb] in Hm. rewrite andb_false_r.
      split; [reflexivity|]. split; [assumption|]. discriminate.
Qed.

Lemma search_lengths d r ma s skipped rest cs :
  search d r ma s = Some (skipped, (rest, cs)) ->
  length skipped + length rest <= length s
  /\ (ma = true -> length skipped + length rest = length s -> skipped <> []).
Proof.
  intros H. apply search_split in H. destruct H as (matched & -> & _ & H).
  rewrite !length_app. split; [lia|].
  intros Hma Hl ->. apply (H Hma eq_refl).
  destruct matched; [reflexivity|]. cbn in Hl. lia.
Qed.

End MatcherFacts.

(** ** [sub] *)
Section SubFacts.
Import Re WrapFunctions Shape.

(** The fuel of [sub_loop] is never used up. *)
Lemma sub_loop_fuel d r tpl count :
  forall n s ma done fuel1 fuel2,
    sub_budget ma s <= n ->
    sub_budget ma s <= fuel1 -> sub_budget ma s <= fuel2 ->
    sub_loop fuel1 d r tpl count done ma s = sub_loop fuel2 d r tpl count done ma s.
Proof.
  induction n as [|n IH]; intros s ma done fuel1 fuel2 Hn H1 H2.
  - unfold sub_budget in Hn. destruct ma; lia.
  - destruct fuel1 as [|fuel1]; [unfold sub_budget in H1; destruct ma; lia|].
    destruct fuel2 as [|fuel2]; [unfold sub_budget in H2; destruct ma; lia|].
    cbn [sub_loop].
    destruct (negb (Nat.eqb count 0) && Nat.leb count done); [reflexivity|].
    destruct (search d r ma s) as [[skipped [rest cs]]|] eqn:E; [|reflexivity].
    apply search_lengths in E. destruct E as [Hle Hadv].
    do 2 f_equal.
    assert (Hb : sub_budget (Nat.eqb (length skipped + length rest) (length s)) rest
                 < sub_budget ma s).
    { unfold sub_budget.
      destruct (Nat.eqb (length skipped + length rest) (length s)) eqn:El.
      - apply Nat.eqb_eq in El. destruct ma.
        + specialize (Hadv eq_refl El). destruct skipped; [congruence|]. cbn in El. lia.
        + lia.
      - apply Nat.eqb_neq in El. destruct ma; lia. }
    apply IH; lia.
Qed.

(** Without a limit the number of replacements made does not matter. *)
Lemma sub_loop_unlimited fuel d r tpl done1 done2 ma s :
  sub_loop fuel d r tpl 0 done1 ma s = sub_loop fuel d r tpl 0 done2 ma s.
Proof.
  revert done1 done2 ma s. induction fuel as [|fuel IH]; intros; [reflexivity|].
  cbn [sub_loop Nat.eqb negb andb].
  destruct (search d r ma s) as [[skipped [rest cs]]|]; [|reflexivity].
  do 2 f_equal. apply IH.
Qed.

Lemma sub_loop_no_match fuel d r tpl count done ma s :
  search d r ma s = None -> sub_loop fuel d r tpl count done ma s = s.
Proof.
  intros H. destruct fuel; [reflexivity|]. cbn [sub_loop]. rewrite H.
  now destruct (negb (Nat.eqb count 0) && Nat.leb count done).
Qed.

(** A pattern that is not found leaves the text as it is. *)
Lemma sub_no_match pattern repl str count fl r groups tpl :
  compile pattern = Ok (r, groups) ->
  parse_template groups (chars repl) = Ok tpl ->
  search (dotall_of fl) r false (chars str) = None ->
  Re.sub pattern repl str count fl = Ok str.
Proof.
  intros Hc Ht Hs. unfold Re.sub. rewrite Hc. cbn [rbind fst snd]. rewrite Ht.
  cbn [rbind]. rewrite sub_loop_no_match by assumption. now rewrite text_chars.
Qed.

Lemma sub_compiled pattern repl str fl r groups tpl :
  compile pattern = Ok (r, groups) ->
  parse_template groups (chars repl) = Ok tpl ->
  Re.sub pattern repl str 0 fl
  = Ok (text (sub_loop (sub_budget false (chars str)) (dotall_of fl) r tpl
                0 0 false (chars str))).
Proof.
  intros Hc Ht. unfold Re.sub. rewrite Hc. cbn [rbind fst snd]. rewrite Ht.
  reflexivity.
Qed.

(** After a match that is not empty, [sub] without a limit goes on over
    the rest of the text as it does from the start. *)
Lemma sub_loop_step d r tpl s skipped rest cs :
  search d r false s = Some (skipped, (rest, cs)) ->
  length skipped + length rest < length s ->
  sub_loop (sub_budget false s) d r tpl 0 0 false s
  = skipped ++ expand tpl cs ++
    sub_loop (sub_budget false rest) d r tpl 0 0 false rest.
Proof.
  intros Hs Hl. unfold sub_budget at 1.
  replace (2 * length s + 2) with (S (2 * length s + 1)) by lia.
  cbn [sub_loop Nat.eqb negb andb]. rewrite Hs.
  destruct (Nat.eqb_spec (length skipped + length rest) (length s)) as [E|_]; [lia|].
  do 2 f_equal.
  rewrite (sub_loop_unlimited _ _ _ _ 1 0).
  apply (sub_loop_fuel _ _ _ _ (sub_budget false rest)); unfold sub_budget; lia.
Qed.

Lemma found_false pattern str fl :
  Re.found pattern str fl = Ok false ->
  exists r groups, compile pattern = Ok (r, groups)
    /\ search (dotall_of fl) r false (chars str) = None.
Proof.
  unfold Re.found. destruct (compile pattern) as [[r g]| |]; cbn [rbind fst];
    try discriminate.
  destruct (search (dotall_of fl) r false (chars str)) eqn:E; [discriminate|].
  intros _. now exists r, g.
Qed.

End SubFacts.

(** ** The two patterns of the script *)
Section PatternFacts.
Import Re WrapFunctions Shape.

Lemma rmatch_lits d p r s cs k m :
  rmatch d (lits p r) s cs k = Some m ->
  exists s', s = p ++ s' /\ rmatch d r s' cs k = Some m.
Proof.
  revert s. induction p as [|a p IH]; intros s H.
  - now exists s.
  - cbn [lits fold_right rmatch] in H. destruct s as [|b t]; [discriminate|].
    destruct (Ascii.eqb b a) eqn:E; [|discriminate].
    apply Ascii.eqb_eq in E. subst b.
    apply IH in H. destruct H as (s' & -> & H). now exists s'.
Qed.




(** Step A does nothing where its pattern is not found. *)
Lemma step_a_not_found (f content : string) :
  Re.found (pattern f) content DOTALL = Ok false ->
  step_a f content = Ok content.
Proof.
  intros H. apply found_false in H. destruct H as (r & g & Hc & Hs).
  unfold step_a.
  apply (sub_no_match _ _ _ _ _ _ _ _ Hc
           (replacement_template g (compile_pattern_groups f r g Hc)) Hs).
Qed.

Lemma step_b_compiled (f content : string) :
  step_b f content
  = Ok (text (sub_loop (sub_budget false (chars content)) true catch_regex
                catch_template 0 0 false (chars content))).
Proof.
  unfold step_b.
  apply (sub_compiled _ _ _ DOTALL _ _ _ compile_catch_pattern (catch_template_ok f)).
Qed.

Lemma catch_regex_shape :
  exists a b, catch_regex = RCat (RGroup 1 a) (RCat (RChar "}") b).
Proof. unfold catch_regex. eexists. eexists. reflexivity. Qed.

(** A failure block is never empty: it has a closing brace at least. *)
Lemma catch_match_nonempty d ma s rest cs :
  match_here d catch_regex ma s = Some (rest, cs) -> length rest < length s.
Proof.
  destruct catch_regex_shape as (a & b & ->).
  unfold match_here. cbn [rmatch]. intros H.
  apply rmatch_suffix in H. destruct H as (s1 & cs1 & Hs1 & H).
  destruct s1 as [|c t]; [discriminate|].
  destruct (Ascii.eqb c "}"); [|discriminate].
  apply rmatch_suffix in H. destruct H as (s2 & cs2 & Hs2 & H).
  destruct (ma && Nat.eqb (length s2) (length s)); [discriminate|].
  injection H as -> _.
  apply is_suffix_length in Hs1, Hs2. cbn [length] in Hs1. lia.
Qed.

End PatternFacts.


(** ** The script *)
Section LoopFacts.
Import Script.
Context {A S : Type} (body : A -> S -> result S).

Lemma fold_raise (xs : list A) (e : exn) :
  fold_left (fun acc x => rbind acc (body x)) xs (Raise e) = Raise e.
Proof. induction xs as [|x xs IH]; [reflexivity|exact IH]. Qed.

Lemma fold_unmodelled (xs : list A) :
  fold_left (fun acc x => rbind acc (body x)) xs Unmodelled = Unmodelled.
Proof. induction xs as [|x xs IH]; [reflexivity|exact IH]. Qed.

(** A [for] loop that assigns to one variable is a left fold. *)
Lemma for_each_fold (xs : list A) (s : S) :
  for_each body xs s = fold_left (fun acc x => rbind acc (body x)) xs (Ok s).
Proof.
  revert s. induction xs as [|x xs IH]; intros s; [reflexivity|].
  cbn [for_each fold_left rbind].
  destruct (body x s) as [s'| |]; cbn [rbind].
  - apply IH.
  - symmetry. apply fold_raise.
  - symmetry. apply fold_unmodelled.
Qed.
End LoopFacts.

Section ScriptFacts.
Import WrapFunctions Script Shape.

Lemma wrap_all_fold (functions : list string) (content : string) :
  wrap_all functions content = fold_names functions content.
Proof. apply for_each_fold. Qed.

Lemma main_short_argv (argv : list string) (w : world) :
  length argv < 2 -> main argv w = (Raise IndexError, w).
Proof.
  intros H. destruct argv as [|a [|b argv]]; [reflexivity|reflexivity|].
  cbn [length] in H. lia.
Qed.

(** The script up to the end of [f.read()]. *)
Lemma main_open (prog filename : string) (functions : list string) (w : world) :
  main (prog :: filename :: functions) w
  = match fs w !! filename with
    | None => (Raise FileNotFoundError, w)
    | Some f =>
        if readable f then
          match wrap_all functions (text (newlines_in (chars (data f)))) with
          | Ok final =>
              pbind (write_file filename final)
                    (fun _ => print (summary (length functions) filename)) w
          | Raise e => (Raise e, w)
          | Unmodelled => (Unmodelled, w)
          end
        else (Raise PermissionError, w)
    end.
Proof.
  unfold main, argv_1. unfold pbind at 1. unfold pret.
  change (drop 2 (prog :: filename :: functions)) with functions.
  rewrite summary_line.
  unfold pbind at 1. unfold read_file.
  destruct (fs w !! filename) as [f|]; [|reflexivity].
  destruct (readable f); [|reflexivity].
  unfold pbind at 1, lift. reflexivity.
Qed.

(** The script once the file is read. *)
Lemma main_read (prog filename : string) (functions : list string)
    (w : world) (f : file) :
  fs w !! filename = Some f -> readable f = true ->
  main (prog :: filename :: functions) w
  = match wrap_all functions (text (newlines_in (chars (data f)))) with
    | Ok final =>
        pbind (write_file filename final)
              (fun _ => print (summary (length functions) filename)) w
    | Raise e => (Raise e, w)
    | Unmodelled => (Unmodelled, w)
    end.
Proof. intros Hf Hr. now rewrite main_open, Hf, Hr. Qed.

Lemma main_written (prog filename : string) (functions : list string)
    (w : world) (f : file) (final : string) :
  fs w !! filename = Some f -> readable f = true -> writable f = true ->
  wrap_all functions (text (newlines_in (chars (data f)))) = Ok final ->
  main (prog :: filename :: functions) w
  = (Ok tt,
     World (<[filename := File (text (newlines_out (chars (linesep w)) (chars final)))
                               true true]> (fs w))
           (String.append (stdout w)
              (String.append (summary (length functions) filename) (String LF "")))
           (linesep w)).
Proof.
  intros Hf Hr Hw Hall. rewrite (main_read _ _ _ _ _ Hf Hr), Hall.
  unfold pbind, write_file, print. rewrite Hf, Hw, Hr. reflexivity.
Qed.

Lemma newlines_in_id (l : list ascii) :
  existsb (Ascii.eqb CR) l = false -> newlines_in l = l.
Proof.
  induction l as [|c l IH]; [reflexivity|]. cbn [existsb newlines_in].
  intros H. apply orb_false_elim in H. destruct H as [Hc Hl].
  rewrite Ascii.eqb_sym, Hc. now rewrite IH.
Qed.

Lemma newlines_out_posix (l : list ascii) : newlines_out [LF] l = l.
Proof.
  induction l as [|c l IH]; [reflexivity|]. cbn [newlines_out].
  destruct (Ascii.eqb c LF) eqn:E.
  - apply Ascii.eqb_eq in E. subst c. cbn [app]. now rewrite IH.
  - now rewrite IH.
Qed.

End ScriptFacts.

(** ** The rewriter, statement by statement *)
Section RewriterFacts.
Import WrapFunctions Shape Spec.

Lemma wrap_function_steps (content f : string) :
  wrap_function content f = rbind (step_a f content) (step_b f).
Proof. unfold wrap_function, step_a, step_b. reflexivity. Qed.


Lemma expand_literals (l : list ascii) (cs : Re.caps) :
  Re.expand (map Re.TLit l) cs = l.
Proof.
  induction l as [|a l IH]; [reflexivity|]. cbn [map Re.expand]. now rewrite IH.
Qed.

(** What Step B writes for a block: the whitespace of group 1, then the
    same text for every name. *)
Lemma expand_catch_template (cs : Re.caps) :
  Re.expand catch_template cs = Re.group_text 1 cs ++ chars written_closer.
Proof. unfold catch_template. cbn [Re.expand]. now rewrite expand_literals. Qed.



End RewriterFacts.

(** * The claims *)

Import WrapFunctions Script Shape Spec.

(** C1 (the script departs from the scenario).  The script run with the
    single name [save] on the file of the scenario: [try {] is replaced by
    the wrapper opener and [ doWork(x);] is kept as it is, but the failure
    block is replaced by a closer whose trailing argument is the text
    [{function_name}], followed by [chr(2)] and two braces; the name
    [save] is nowhere in what is written for the block. *)
Theorem save_scenario_closer_lacks_name :
  main ["wrap_functions.py"; "actions.ts"; "save"]%string
       (one_file posix "actions.ts" save_input)
  = (Ok tt,
     World {[ "actions.ts"%string := File save_output true true ]}
           (String.append (summary 1 "actions.ts") posix) posix)
  /\ wrap_function save_input "save" = Ok save_output
  /\ occurs_in "save" written_closer = false.
Proof. split; [|split]; vm_compute; reflexivity. Qed.

(** C2 (the script departs from the claim).  On a file with exactly one
    guarded function [load] and its failure block, the rewrite for [load]
    replaces the block by a closer whose trailing argument is the text
    [{function_name}], not the name: the name is not in the text written
    for the block. *)
Theorem load_closer_lacks_name :
  wrap_function load_input "load" = Ok load_output
  /\ occurs_in "{function_name}" load_output = true
  /\ occurs_in "load" written_closer = false.
Proof. split; [|split]; vm_compute; reflexivity. Qed.




(** C4, against the claim as stated: on a file with the failure blocks
    of [first] and of [second], in this order, the rewrite for [second]
    rewrites both blocks, which is not what rewriting the first block of
    the file only gives. *)
Lemma second_block_rewritten_too :
  wrap_function two_blocks "second" = Ok two_blocks_output
  /\ wrap_function_first_block two_blocks "second" = Ok two_blocks_first_only
  /\ two_blocks_output <> two_blocks_first_only.
Proof.
  split; [|split]; [vm_compute; reflexivity ..|].
  apply String.eqb_neq. vm_compute. reflexivity.
Qed.

(** C4, amended.  Step B is not scoped to the function of Step A and does
    not stop at the first block: where the failure pattern is first found
    in the result of Step A, the block is replaced by the whitespace
    before it and the closer, and the text after the block is rewritten
    by Step B in the same way, whichever function the blocks belong to. *)
Theorem step_b_goes_on_after_a_block (content f c1 : string)
    (skipped rest : list ascii) (cs : Re.caps) :
  step_a f content = Ok c1 ->
  Re.search true catch_regex false (chars c1) = Some (skipped, (rest, cs)) ->
  exists out_rest,
    step_b f (text rest) = Ok out_rest
    /\ wrap_function content f
       = Ok (String.append (text skipped)
               (String.append (text (Re.group_text 1 cs))
                  (String.append written_closer out_rest))).
Proof.
  intros Ha Hs.
  exists (text (Re.sub_loop (sub_budget false rest) true catch_regex catch_template
                  0 0 false rest)).
  split.
  - rewrite step_b_compiled, chars_text. reflexivity.
  - rewrite wrap_function_steps, Ha. cbn [rbind]. rewrite step_b_compiled.
    destruct (search_split _ _ _ _ _ _ _ Hs) as (matched & Hc1 & Hm & _).
    apply catch_match_nonempty in Hm.
    rewrite (sub_loop_step _ _ _ _ _ _ _ Hs).
    + rewrite expand_catch_template, <- app_assoc, !text_app, text_chars. reflexivity.
    + rewrite Hc1, !length_app. rewrite length_app in Hm. lia.
Qed.

Lemma step_b_goes_on_after_a_block_witness :
  exists out_rest,
    step_b "third" (text (chars two_blocks_after)) = Ok out_rest
    /\ wrap_function two_blocks "third"
       = Ok (String.append (text (chars two_blocks_before))
               (String.append
                  (text (Re.group_text 1 [(2, block_indent); (1, block_indent)]))
                  (String.append written_closer out_rest))).
Proof.
  apply (step_b_goes_on_after_a_block two_blocks "third" two_blocks
           (chars two_blocks_before) (chars two_blocks_after)
           [(2, block_indent); (1, block_indent)]); vm_compute; reflexivity.
Defined.

(** C5.  With a file that can be read and written, the content the script
    writes back is the left fold of [wrap_function] over the content it
    read, one pass per name, in the order of the command line.  (The
    content is what text mode gives and takes.) *)
Theorem driver_folds_transform (prog filename : string) (functions : list string)
    (w : world) (f : file) (final : string) :
  fs w !! filename = Some f -> readable f = true -> writable f = true ->
  fold_names functions (text (newlines_in (chars (data f)))) = Ok final ->
  main (prog :: filename :: functions) w
  = (Ok tt,
     World (<[filename := File (text (newlines_out (chars (linesep w)) (chars final)))
                               true true]> (fs w))
           (String.append (stdout w)
              (String.append (summary (length functions) filename) (String LF "")))
           (linesep w)).
Proof.
  intros Hf Hr Hw Hfold. rewrite <- wrap_all_fold in Hfold.
  exact (main_written prog filename functions w f final Hf Hr Hw Hfold).
Qed.

Lemma driver_folds_transform_witness :
  main ["wrap_functions.py"; "actions.ts"; "second"; "first"]%string
       (one_file posix "actions.ts" two_blocks)
  = (Ok tt,
     World (<["actions.ts"%string :=
              File (text (newlines_out (chars posix) (chars two_blocks_both)))
                   true true]>
              {[ "actions.ts"%string := File two_blocks true true ]})
           (String.append ""
              (String.append (summary 2 "actions.ts") (String LF "")))
           posix).
Proof.
  apply (driver_folds_transform "wrap_functions.py" "actions.ts"
           ["second"; "first"]%string (one_file posix "actions.ts" two_blocks)
           (File two_blocks true true)); vm_compute; reflexivity.
Defined.

(** C6, against the claim as stated: run without a name on a file with
    Windows line ends, where the line separator is a line feed, the
    script prints a count of 0 and writes the file back with Unix line
    ends, so the file is not what it was; and where the separator is
    [\r\n], a file with Unix line ends is written back with Windows
    ones. *)
Lemma crlf_file_not_preserved :
  main ["wrap_functions.py"; "actions.ts"]%string
       (one_file posix "actions.ts" crlf_file)
  = (Ok tt,
     World {[ "actions.ts"%string := File lf_file true true ]}
           (String.append (summary 0 "actions.ts") posix) posix)
  /\ main ["wrap_functions.py"; "actions.ts"]%string
          (one_file windows "actions.ts" lf_file)
     = (Ok tt,
        World {[ "actions.ts"%string := File crlf_file true true ]}
              (String.append (summary 0 "actions.ts") posix) windows)
  /\ lf_file <> crlf_file.
Proof.
  split; [|split]; [vm_compute; reflexivity ..|].
  apply String.eqb_neq. vm_compute. reflexivity.
Qed.

(** C6, amended.  Run with a file name and no function name, on a file
    that can be read and written, the script prints a count of 0 and
    writes the file back with its text unchanged but for the line ends:
    [\r\n] and [\r] have become the line separator.  A file without a
    carriage return, where the separator is a line feed, is unchanged. *)
Theorem no_names_keeps_text (prog filename : string) (w : world) (f : file) :
  fs w !! filename = Some f -> readable f = true -> writable f = true ->
  main [prog; filename] w
  = (Ok tt,
     World (<[filename :=
              File (text (newlines_out (chars (linesep w)) (newlines_in (chars (data f)))))
                   true true]> (fs w))
           (String.append (stdout w)
              (String.append (summary 0 filename) (String LF "")))
           (linesep w))
  /\ (linesep w = posix -> existsb (Ascii.eqb CR) (chars (data f)) = false ->
      fs (snd (main [prog; filename] w)) = fs w).
Proof.
  intros Hf Hr Hw.
  assert (Hm := main_written prog filename [] w f _ Hf Hr Hw eq_refl).
  rewrite chars_text in Hm. split; [exact Hm|].
  intros Hsep Hcr. rewrite Hm. cbn [snd fs]. rewrite Hsep.
  change (chars posix) with [LF].
  rewrite newlines_out_posix, (newlines_in_id _ Hcr), text_chars.
  apply insert_id. rewrite Hf. destruct f as [d r x]. cbn in Hr, Hw. now subst.
Qed.

Lemma no_names_keeps_text_witness :
  main ["wrap_functions.py"; "actions.ts"]%string (one_file posix "actions.ts" lf_file)
  = (Ok tt,
     World (<["actions.ts"%string :=
              File (text (newlines_out (chars posix) (newlines_in (chars lf_file))))
                   true true]> {[ "actions.ts"%string := File lf_file true true ]})
           (String.append "" (String.append (summary 0 "actions.ts") (String LF "")))
           posix)
  /\ (posix = posix -> existsb (Ascii.eqb CR) (chars lf_file) = false ->
      fs (snd (main ["wrap_functions.py"; "actions.ts"]%string
                 (one_file posix "actions.ts" lf_file)))
      = {[ "actions.ts"%string := File lf_file true true ]}).
Proof.
  apply (no_names_keeps_text "wrap_functions.py" "actions.ts"
           (one_file posix "actions.ts" lf_file) (File lf_file true true));
    vm_compute; reflexivity.
Defined.

(** C7.  A run that completes has printed [Wrapped <count> functions in
    <filename>], where the count is the number of names on the command
    line, whether their patterns matched or not. *)
Theorem summary_counts_names (argv : list string) (w w' : world) :
  main argv w = (Ok tt, w') ->
  exists prog filename functions,
    argv = prog :: filename :: functions
    /\ stdout w'
       = String.append (stdout w)
           (String.append
              (String.append "Wrapped "
                 (String.append (str_of_nat (length functions))
                    (String.append " functions in " filename)))
              (String LF "")).
Proof.
  intros H. destruct argv as [|prog [|filename functions]].
  - rewrite main_short_argv in H by (cbn; lia). discriminate.
  - rewrite main_short_argv in H by (cbn; lia). discriminate.
  - exists prog, filename, functions. split; [reflexivity|].
    rewrite main_open in H.
    destruct (fs w !! filename) as [f|] eqn:Hf; [|discriminate].
    destruct (readable f) eqn:Hr; [|discriminate].
    destruct (wrap_all functions _) as [final| |]; [|discriminate|discriminate].
    unfold pbind, write_file, print in H. rewrite Hf in H.
    destruct (writable f); [|discriminate].
    injection H as <-. reflexivity.
Qed.

Lemma summary_counts_names_witness :
  exists prog filename functions,
    ["wrap_functions.py"; "actions.ts"; "save"]%string = prog :: filename :: functions
    /\ stdout (World {[ "actions.ts"%string := File ping_file true true ]}
                 (String.append "Wrapped 1 functions in actions.ts" posix) posix)
       = String.append (stdout (one_file posix "actions.ts" ping_file))
           (String.append
              (String.append "Wrapped "
                 (String.append (str_of_nat (length functions))
                    (String.append " functions in " filename)))
              (String LF "")).
Proof.
  apply (summary_counts_names ["wrap_functions.py"; "actions.ts"; "save"]%string
           (one_file posix "actions.ts" ping_file)).
  vm_compute. reflexivity.
Defined.

(** C8.  If the file is missing or cannot be read, the script ends with
    the error of [open], uncaught, and the world is as it was: no file is
    written and nothing is printed. *)
Theorem read_failure_leaves_file (prog filename : string) (functions : list string)
    (w : world) :
  (fs w !! filename = None
   \/ exists f, fs w !! filename = Some f /\ readable f = false) ->
  exists e,
    (e = FileNotFoundError \/ e = PermissionError)
    /\ main (prog :: filename :: functions) w = (Raise e, w).
Proof.
  intros [Hf|(f & Hf & Hr)]; rewrite main_open, Hf.
  - exists FileNotFoundError. auto.
  - rewrite Hr. exists PermissionError. auto.
Qed.

Lemma read_failure_leaves_file_witness :
  exists e,
    (e = FileNotFoundError \/ e = PermissionError)
    /\ main ["wrap_functions.py"; "missing.ts"; "save"]%string
            (one_file posix "actions.ts" save_input)
       = (Raise e, one_file posix "actions.ts" save_input).
Proof.
  apply (read_failure_leaves_file "wrap_functions.py" "missing.ts" ["save"%string]
           (one_file posix "actions.ts" save_input)).
  left. vm_compute. reflexivity.
Defined.

(** C9.  The text written for a failure block does not depend on the
    name.  For two names whose entry patterns are not found in the
    content, [wrap_function] gives the same result, and that result is
    pinned: where the failure pattern is found, it is the text before the
    block, the whitespace of group 1, the constant
    [}, {function_name});] with [chr(2)] and [}}], and the rest rewritten
    by Step B, the same for every name; where it is not found, it is the
    content.  The replacement is the same string for every name, and as
    a template it refers to group 1 only: nothing is written for the
    whitespace of group 2. *)
Theorem closer_independent_of_name (content f g : string) :
  Re.found (pattern f) content Re.DOTALL = Ok false ->
  Re.found (pattern g) content Re.DOTALL = Ok false ->
  wrap_function content f = wrap_function content g
  /\ Re.compile catch_pattern = Ok (catch_regex, 2)
  /\ match Re.search true catch_regex false (chars content) with
     | Some (skipped, (rest, cs)) =>
         exists out_rest,
           (forall h, step_b h (text rest) = Ok out_rest)
           /\ wrap_function content f
              = Ok (String.append (text skipped)
                      (String.append (text (Re.group_text 1 cs))
                         (String.append
                            (String.append "}, {function_name});"
                               (String (ascii_of_nat 2) "}}"))
                            out_rest)))
     | None => wrap_function content f = Ok content
     end
  /\ catch_replacement f
     = String.append "\1}, {function_name});" (String (ascii_of_nat 2) "}}")
  /\ Re.parse_template 2 (chars (catch_replacement f))
     = Ok (Re.TGroup 1
             :: map Re.TLit
                  (chars (String.append "}, {function_name});"
                            (String (ascii_of_nat 2) "}}")))).
Proof.
  intros Hf Hg.
  assert (Hwf : forall h, Re.found (pattern h) content Re.DOTALL = Ok false ->
            wrap_function content h
            = Ok (text (Re.sub_loop (sub_budget false (chars content)) true catch_regex
                          catch_template 0 0 false (chars content)))).
  { intros h Hh. rewrite wrap_function_steps, (step_a_not_found h content Hh).
    cbn [rbind]. apply step_b_compiled. }
  split; [now rewrite (Hwf f Hf), (Hwf g Hg)|].
  split; [exact compile_catch_pattern|].
  split; [|split; reflexivity].
  rewrite (Hwf f Hf).
  destruct (Re.search true catch_regex false (chars content))
    as [[skipped [rest cs]]|] eqn:Hs.
  - exists (text (Re.sub_loop (sub_budget false rest) true catch_regex catch_template
                    0 0 false rest)).
    split.
    + intros h. rewrite step_b_compiled, chars_text. reflexivity.
    + destruct (search_split _ _ _ _ _ _ _ Hs) as (matched & Hc1 & Hm & _).
      apply catch_match_nonempty in Hm.
      rewrite (sub_loop_step _ _ _ _ _ _ _ Hs).
      * rewrite expand_catch_template, <- app_assoc, !text_app, text_chars. reflexivity.
      * rewrite Hc1, !length_app. rewrite length_app in Hm. lia.
  - rewrite (sub_loop_no_match _ _ _ _ _ _ _ _ Hs), text_chars. reflexivity.
Qed.

Lemma closer_independent_of_name_witness :
  wrap_function remove_input "save" = wrap_function remove_input "load"
  /\ Re.compile catch_pattern = Ok (catch_regex, 2)
  /\ (exists out_rest,
        (forall h, step_b h (text (chars " }")) = Ok out_rest)
        /\ wrap_function remove_input "save"
           = Ok (String.append
                   (text (chars "export async function remove(id) { try { drop(id);"))
                   (String.append (text (Re.group_text 1 [(2, [" "]); (1, [" "])]))
                      (String.append
                         (String.append "}, {function_name});"
                            (String (ascii_of_nat 2) "}}"))
                         out_rest))))
  /\ catch_replacement "save"
     = String.append "\1}, {function_name});" (String (ascii_of_nat 2) "}}")
  /\ Re.parse_template 2 (chars (catch_replacement "save"))
     = Ok (Re.TGroup 1
             :: map Re.TLit
                  (chars (String.append "}, {function_name});"
                            (String (ascii_of_nat 2) "}}")))).
Proof.
  assert (Hf : Re.found (pattern "save") remove_input Re.DOTALL = Ok false)
    by (vm_compute; reflexivity).
  assert (Hg : Re.found (pattern "load") remove_input Re.DOTALL = Ok false)
    by (vm_compute; reflexivity).
  assert (Hs : Re.search true catch_regex false (chars remove_input)
               = Some (chars "export async function remove(id) { try { drop(id);",
                       (chars " }", [(2, [" "]); (1, [" "])])))
    by (vm_compute; reflexivity).
  pose proof (closer_independent_of_name remove_input "save" "load" Hf Hg) as H.
  rewrite Hs in H. exact H.
Defined.



(** * More of the script *)

Import Terms.

(** ** Results *)
Section ResultFacts.

Lemma rbind_ok {A B : Type} (a : A) (k : A -> result B) : rbind (Ok a) k = k a.
Proof. reflexivity. Qed.

Lemma rbind_raise {A B : Type} (e : exn) (k : A -> result B) :
  rbind (Raise e) k = Raise e.
Proof. reflexivity. Qed.

Lemma rbind_unmodelled {A B : Type} (k : A -> result B) :
  rbind Unmodelled k = Unmodelled.
Proof. reflexivity. Qed.

End ResultFacts.

(** ** What the parser and [sub] raise *)
Section RaiseFacts.

(** On the patterns the model reads, what the parser raises is an
    [re.error]; a pattern nested too deep is [Unmodelled]. *)
Lemma parse_raises (n : nat) :
  forall src set st e,
    length src <= n -> Re.parse src set st = Raise e -> exists re, e = ReError re.
Proof.
  induction n as [|n IH]; intros src set st e Hn H.
  - destruct src; [|cbn in Hn; lia].
    destruct set as [[neg items]|]; cbn [Re.parse] in H.
    + injection H as <-. eauto.
    + destruct (Re.ps_stack st); [discriminate|]. injection H as <-. eauto.
  - destruct src as [|c t].
    + destruct set as [[neg items]|]; cbn [Re.parse] in H.
      * injection H as <-. eauto.
      * destruct (Re.ps_stack st); [discriminate|]. injection H as <-. eauto.
    + cbn [length] in Hn.
      destruct set as [[neg items]|]; cbn [Re.parse] in H.
      * destruct (Ascii.eqb c "]" && _).
        { apply IH in H; [exact H | lia]. }
        destruct (Ascii.eqb c "\").
        { destruct t as [|e0 t']; [injection H as <-; eauto|].
          destruct (Re.escape_item e0); [|discriminate].
          destruct (Re.starts_with "-" t'); [discriminate|].
          apply IH in H; [exact H | cbn [length] in Hn; lia]. }
        destruct (Re.starts_with "-" t); [discriminate|].
        apply IH in H; [exact H | lia].
      * destruct (Ascii.eqb c "\").
        { destruct t as [|e0 t']; [injection H as <-; eauto|].
          destruct (Re.escape_item e0); [|discriminate].
          apply IH in H; [exact H | cbn [length] in Hn; lia]. }
        destruct (negb (Re.is_special c)).
        { apply IH in H; [exact H | lia]. }
        destruct (Ascii.eqb c "[").
        { destruct t as [|c' t']; [injection H as <-; eauto|].
          destruct (Ascii.eqb c' "^");
            (apply IH in H; [exact H | cbn [length] in *; lia]). }
        destruct (Ascii.eqb c "*" || Ascii.eqb c "+" || Ascii.eqb c "?").
        { destruct (Re.fr_seq (Re.ps_cur st)) as [|i items]; [injection H as <-; eauto|].
          destruct (Re.is_repeat i); [injection H as <-; eauto|].
          destruct (Re.starts_with "?" t || Re.starts_with "+" t); [discriminate|].
          apply IH in H; [exact H | lia]. }
        destruct (Ascii.eqb c ".").
        { apply IH in H; [exact H | lia]. }
        destruct (Ascii.eqb c "(").
        { destruct (Re.starts_with "?" t); [discriminate|].
          destruct (Nat.leb Re.max_nesting _); [discriminate|].
          apply IH in H; [exact H | lia]. }
        destruct (Ascii.eqb c ")").
        { destruct (Re.ps_stack st); [injection H as <-; eauto|].
          apply IH in H; [exact H | lia]. }
        destruct (Ascii.eqb c "|"); [|discriminate].
        apply IH in H; [exact H | lia].
Qed.

Lemma compile_raises (p : string) (e : exn) :
  Re.compile p = Raise e -> exists re, e = ReError re.
Proof. unfold Re.compile. apply (parse_raises _ _ _ _ _ (le_n _)). Qed.

Lemma sub_compile_raises p repl str count fl e :
  Re.compile p = Raise e -> Re.sub p repl str count fl = Raise e.
Proof. intros H. unfold Re.sub. now rewrite H. Qed.

Lemma sub_compile_unmodelled p repl str count fl :
  Re.compile p = Unmodelled -> Re.sub p repl str count fl = Unmodelled.
Proof. intros H. unfold Re.sub. now rewrite H. Qed.

Lemma sub_returns p repl str fl out :
  Re.sub p repl str 0 fl = Ok out ->
  exists r g tpl,
    Re.compile p = Ok (r, g)
    /\ Re.parse_template g (chars repl) = Ok tpl
    /\ out = text (Re.sub_loop (sub_budget false (chars str)) (Re.dotall_of fl) r tpl
                     0 0 false (chars str)).
Proof.
  unfold Re.sub. destruct (Re.compile p) as [[r g]| |] eqn:Hr; cbn [rbind fst snd];
    [|discriminate..].
  destruct (Re.parse_template g (chars repl)) as [tpl| |] eqn:Ht; cbn [rbind];
    [|discriminate..].
  intros H. injection H as <-. exists r, g, tpl.
  split; [reflexivity|split; [exact Ht|reflexivity]].
Qed.

(** What [wrap_function] does is decided by the entry pattern: a text when
    it compiles, its error when it does not. *)
Lemma wrap_function_compiled (content f : string) (r : Re.regex) (g : nat) :
  Re.compile (pattern f) = Ok (r, g) -> exists out, wrap_function content f = Ok out.
Proof.
  intros Hr. rewrite wrap_function_steps. unfold step_a.
  rewrite (sub_compiled _ _ _ Re.DOTALL _ _ _ Hr
             (replacement_template g (compile_pattern_groups f r g Hr))).
  rewrite rbind_ok, step_b_compiled. eauto.
Qed.

Lemma wrap_function_raises (content f : string) (e : exn) :
  Re.compile (pattern f) = Raise e -> wrap_function content f = Raise e.
Proof.
  intros Hr. rewrite wrap_function_steps. unfold step_a.
  rewrite (sub_compile_raises _ _ _ _ _ _ Hr). apply rbind_raise.
Qed.

Lemma wrap_function_unmodelled (content f : string) :
  Re.compile (pattern f) = Unmodelled -> wrap_function content f = Unmodelled.
Proof.
  intros Hr. rewrite wrap_function_steps. unfold step_a.
  rewrite (sub_compile_unmodelled _ _ _ _ _ Hr). apply rbind_unmodelled.
Qed.

Lemma step_a_returns f content c1 :
  step_a f content = Ok c1 ->
  exists r g,
    Re.compile (pattern f) = Ok (r, g)
    /\ c1 = text (Re.sub_loop (sub_budget false (chars content)) true r entry_template
                    0 0 false (chars content)).
Proof.
  unfold step_a. intros H. apply sub_returns in H.
  destruct H as (r & g & tpl & Hr & Ht & ->).
  rewrite (replacement_template g (compile_pattern_groups f r g Hr)) in Ht.
  injection Ht as <-. now exists r, g.
Qed.

End RaiseFacts.

(** ** Where the two patterns match *)
Section MatchFacts.

Lemma occursb_suffix (needle pre s : list ascii) :
  occursb needle s = true -> occursb needle (pre ++ s) = true.
Proof.
  intros H. induction pre as [|a pre IH]; [exact H|].
  cbn [app occursb]. rewrite IH. apply orb_true_r.
Qed.

Lemma firstn_app_exact (pre s : list ascii) :
  firstn (length (pre ++ s) - length s) (pre ++ s) = pre.
Proof.
  rewrite length_app. replace (length pre + length s - length s) with (length pre) by lia.
  induction pre as [|a pre IH]; [now destruct s|]. cbn. now rewrite IH.
Qed.

Lemma entry_tail_shape : exists t, entry_tail = Re.RCat (Re.RChar "(") t.
Proof. unfold entry_tail. eexists. reflexivity. Qed.

(** Where the entry pattern matches: group 1 is the text from the
    declaration to the whitespace after the brace, and [try {] follows. *)
Lemma entry_match_shape d f ma s rest cs :
  Re.match_here d (entry_regex f) ma s = Some (rest, cs) ->
  exists tail,
    Re.group_text 1 cs = chars "export async function " ++ f ++ "(" :: tail
    /\ s = Re.group_text 1 cs ++ chars "try {" ++ rest.
Proof.
  destruct entry_tail_shape as (t0 & Ht).
  unfold Re.match_here, entry_regex. rewrite Ht. cbn [Re.rmatch]. intros H.
  apply rmatch_lits in H. destruct H as (s1 & Hs & H).
  apply rmatch_lits in H. destruct H as (s2 & -> & H).
  cbn [Re.rmatch] in H.
  destruct s2 as [|c t]; [discriminate|].
  destruct (Ascii.eqb c "(") eqn:E; [|discriminate].
  apply Ascii.eqb_eq in E. subst c.
  apply rmatch_suffix in H. destruct H as (s3 & cs3 & [p3 ->] & H).
  apply rmatch_lits in H. destruct H as (s4 & -> & H).
  cbn [Re.rmatch] in H.
  match type of H with context [if ?c then _ else _] => destruct c end;
    [discriminate|]. injection H as -> <-.
  cbn [Re.group_text Nat.eqb].
  assert (Hsplit : s = (chars "export async function " ++ f ++ "(" :: p3)
                        ++ chars "try {" ++ rest).
  { rewrite Hs. rewrite <- !app_assoc. cbn [app]. reflexivity. }
  change (S (S (S (S (S (length rest)))))) with (length (chars "try {" ++ rest)).
  clear Hs. subst s. rewrite firstn_app_exact.
  exists p3. split; reflexivity.
Qed.

Lemma entry_search_declaration d f ma s x :
  Re.search d (entry_regex f) ma s = Some x ->
  occursb (chars "export async function " ++ f ++ ["("]) s = true.
Proof.
  destruct x as [skipped [rest cs]]. intros H.
  apply search_split in H. destruct H as (matched & -> & H & _).
  apply entry_match_shape in H. destruct H as (tail & Hg & ->).
  apply occursb_suffix. rewrite Hg.
  change ("(" :: tail) with (["("] ++ tail). rewrite <- !app_assoc.
  rewrite !app_assoc. rewrite <- (app_assoc _ tail). rewrite <- (app_assoc _ (tail ++ _)).
  apply (occursb_app []).
Qed.

Lemma star_loop_keeps_group n body :
  keeps_group n body -> forall fuel, keeps_group n (Re.star_loop body fuel).
Proof.
  intros Hb fuel. induction fuel as [|fuel IH]; intros s cs k m H.
  - cbn in H. exists s, cs. auto using is_suffix_refl.
  - cbn in H. apply orelse_some in H. destruct H as [H|[_ H]].
    + destruct (Hb _ _ _ _ H) as (s1 & cs1 & Hs1 & Hc1 & H1).
      destruct (Nat.eqb (length s1) (length s)).
      * exists s1, cs1. auto.
      * destruct (IH _ _ _ _ H1) as (s2 & cs2 & Hs2 & Hc2 & H2).
        exists s2, cs2. split; [exact (is_suffix_trans _ _ _ Hs2 Hs1)|].
        split; [congruence|exact H2].
    + exists s, cs. auto using is_suffix_refl.
Qed.

(** A pattern without group [n] leaves the text of group [n] as it is. *)
Lemma rmatch_keeps_group n d r :
  has_group n r = false -> keeps_group n (Re.rmatch d r).
Proof.
  induction r; intros Hg s cs k m H; cbn [Re.rmatch] in H; cbn [has_group] in Hg.
  - exists s, cs. auto using is_suffix_refl.
  - destruct s as [|a t]; [discriminate|]. destruct (Ascii.eqb a c); [|discriminate].
    exists t, cs. auto using is_suffix_tail.
  - destruct s as [|a t]; [discriminate|].
    destruct (d || negb (Ascii.eqb a "010")); [|discriminate].
    exists t, cs. auto using is_suffix_tail.
  - destruct s as [|a t]; [discriminate|].
    destruct (Re.set_matches negate items a); [|discriminate].
    exists t, cs. auto using is_suffix_tail.
  - apply orb_false_elim in Hg. destruct Hg as [Hg1 Hg2].
    destruct (IHr1 Hg1 _ _ _ _ H) as (s1 & cs1 & Hs1 & Hc1 & H1).
    destruct (IHr2 Hg2 _ _ _ _ H1) as (s2 & cs2 & Hs2 & Hc2 & H2).
    exists s2, cs2. split; [exact (is_suffix_trans _ _ _ Hs2 Hs1)|].
    split; [congruence|exact H2].
  - apply orb_false_elim in Hg. destruct Hg as [Hg1 Hg2].
    apply orelse_some in H. destruct H as [H|[_ H]].
    + exact (IHr1 Hg1 _ _ _ _ H).
    + exact (IHr2 Hg2 _ _ _ _ H).
  - exact (star_loop_keeps_group _ _ (IHr Hg) _ _ _ _ _ H).
  - destruct (IHr Hg _ _ _ _ H) as (s1 & cs1 & Hs1 & Hc1 & H1).
    destruct (star_loop_keeps_group _ _ (IHr Hg) _ _ _ _ _ H1)
      as (s2 & cs2 & Hs2 & Hc2 & H2).
    exists s2, cs2. split; [exact (is_suffix_trans _ _ _ Hs2 Hs1)|].
    split; [congruence|exact H2].
  - apply orelse_some in H. destruct H as [H|[_ H]].
    + exact (IHr Hg _ _ _ _ H).
    + exists s, cs. auto using is_suffix_refl.
  - apply orb_false_elim in Hg. destruct Hg as [Hn Hg].
    destruct (IHr Hg _ _ _ _ H) as (s1 & cs1 & Hs1 & Hc1 & H1).
    exists s1, ((n0, firstn (length s - length s1) s) :: cs1).
    split; [assumption|]. split; [|assumption].
    cbn [Re.group_text]. now rewrite Hn.
Qed.

Lemma catch_regex_parts :
  exists b,
    catch_regex
    = Re.RCat (Re.RGroup 1 (Re.RCat (Re.RStar (Re.RSet false [Re.CSpace])) Re.REps))
              (lits (chars catch_opener) b)
    /\ has_group 1 b = false.
Proof. unfold catch_regex. eexists. split; reflexivity. Qed.

(** The loop of [\s*] takes whitespace and nothing else. *)
Lemma star_space_loop d fuel :
  forall s cs k m,
    Re.star_loop (Re.rmatch d (Re.RSet false [Re.CSpace])) fuel s cs k = Some m ->
    exists pre s', s = pre ++ s' /\ forallb Re.is_space pre = true /\ k s' cs = Some m.
Proof.
  induction fuel as [|fuel IH]; intros s cs k m H.
  - cbn [Re.star_loop] in H. now exists [], s.
  - cbn [Re.star_loop] in H. apply orelse_some in H. destruct H as [H|[_ H]];
      [|now exists [], s].
    cbn [Re.rmatch] in H. destruct s as [|a t]; [discriminate|].
    destruct (Re.set_matches false [Re.CSpace] a) eqn:Ea; [|discriminate].
    assert (Hsp : Re.is_space a = true).
    { unfold Re.set_matches in Ea. cbn [existsb Re.item_matches xorb] in Ea.
      now rewrite orb_false_r in Ea. }
    destruct (Nat.eqb (length t) (length (a :: t))).
    + exists [a], t. cbn [app forallb]. rewrite Hsp. auto.
    + apply IH in H. destruct H as (pre & s' & -> & Hpre & H).
      exists (a :: pre), s'. cbn [app forallb]. rewrite Hsp, Hpre. auto.
Qed.

(** Where the failure pattern matches: group 1 is the whitespace in front,
    and the block starts with [} catch (error) {]. *)
Lemma catch_match_shape d ma s rest cs :
  Re.match_here d catch_regex ma s = Some (rest, cs) ->
  forallb Re.is_space (Re.group_text 1 cs) = true
  /\ exists body, s = Re.group_text 1 cs ++ chars catch_opener ++ body ++ rest.
Proof.
  destruct catch_regex_parts as (b & -> & Hb).
  unfold Re.match_here. cbn [Re.rmatch]. intros H.
  apply (star_space_loop d) in H. destruct H as (pre & s1 & -> & Hpre & H).
  apply rmatch_lits in H. destruct H as (s2 & -> & H).
  apply (rmatch_keeps_group 1 d b Hb) in H.
  destruct H as (s3 & cs3 & [body ->] & Hg & H).
  match type of H with context [if ?c then _ else _] => destruct c end;
    [discriminate|]. injection H as -> <-.
  rewrite Hg. cbn [Re.group_text Nat.eqb]. rewrite firstn_app_exact.
  split; [exact Hpre|]. now exists body.
Qed.

Lemma catch_search_opener d ma s x :
  Re.search d catch_regex ma s = Some x -> occursb (chars catch_opener) s = true.
Proof.
  destruct x as [skipped [rest cs]]. intros H.
  apply search_split in H. destruct H as (matched & -> & H & _).
  apply catch_match_shape in H. destruct H as (_ & body & ->).
  apply occursb_suffix. apply occursb_app.
Qed.

End MatchFacts.

(** ** The characters of the result *)
Section CharFacts.

Lemma forallb_app_true (q : ascii -> bool) (l1 l2 : list ascii) :
  forallb q (l1 ++ l2) = true <-> forallb q l1 = true /\ forallb q l2 = true.
Proof. rewrite forallb_app. apply andb_true_iff. Qed.

Lemma forallb_suffix q s' s :
  is_suffix s' s -> forallb q s = true -> forallb q s' = true.
Proof. intros [pre ->] H. now apply forallb_app_true in H. Qed.

Lemma forallb_firstn (q : ascii -> bool) n (s : list ascii) :
  forallb q s = true -> forallb q (firstn n s) = true.
Proof.
  revert n. induction s as [|a s IH]; intros n H; destruct n; try reflexivity.
  cbn [firstn forallb] in *. apply andb_true_iff in H. destruct H as [Ha Hs].
  now rewrite Ha, IH.
Qed.

Lemma star_loop_keeps q body :
  keeps_chars q body -> forall fuel, keeps_chars q (Re.star_loop body fuel).
Proof.
  intros Hb fuel. induction fuel as [|fuel IH]; intros s cs k m Hq Hcs H.
  - cbn in H. exists s, cs. auto using is_suffix_refl.
  - cbn in H. apply orelse_some in H. destruct H as [H|[_ H]].
    + destruct (Hb _ _ _ _ Hq Hcs H) as (s1 & cs1 & Hs1 & Hc1 & H1).
      destruct (Nat.eqb (length s1) (length s)).
      * exists s1, cs1. auto.
      * assert (Hq1 := forallb_suffix q _ _ Hs1 Hq).
        destruct (IH _ _ _ _ Hq1 Hc1 H1) as (s2 & cs2 & Hs2 & Hc2 & H2).
        exists s2, cs2. split; [exact (is_suffix_trans _ _ _ Hs2 Hs1)|auto].
    + exists s, cs. auto using is_suffix_refl.
Qed.

Lemma rmatch_keeps q d r : keeps_chars q (Re.rmatch d r).
Proof.
  induction r; intros s cs k m Hq Hcs H; cbn [Re.rmatch] in H.
  - exists s, cs. auto using is_suffix_refl.
  - destruct s as [|a t]; [discriminate|]. destruct (Ascii.eqb a c); [|discriminate].
    exists t, cs. auto using is_suffix_tail.
  - destruct s as [|a t]; [discriminate|].
    destruct (d || negb (Ascii.eqb a "010")); [|discriminate].
    exists t, cs. auto using is_suffix_tail.
  - destruct s as [|a t]; [discriminate|].
    destruct (Re.set_matches negate items a); [|discriminate].
    exists t, cs. auto using is_suffix_tail.
  - destruct (IHr1 _ _ _ _ Hq Hcs H) as (s1 & cs1 & Hs1 & Hc1 & H1).
    assert (Hq1 := forallb_suffix q _ _ Hs1 Hq).
    destruct (IHr2 _ _ _ _ Hq1 Hc1 H1) as (s2 & cs2 & Hs2 & Hc2 & H2).
    exists s2, cs2. split; [exact (is_suffix_trans _ _ _ Hs2 Hs1)|auto].
  - apply orelse_some in H. destruct H as [H|[_ H]].
    + exact (IHr1 _ _ _ _ Hq Hcs H).
    + exact (IHr2 _ _ _ _ Hq Hcs H).
  - exact (star_loop_keeps _ _ IHr _ _ _ _ _ Hq Hcs H).
  - destruct (IHr _ _ _ _ Hq Hcs H) as (s1 & cs1 & Hs1 & Hc1 & H1).
    assert (Hq1 := forallb_suffix q _ _ Hs1 Hq).
    destruct (star_loop_keeps _ _ IHr _ _ _ _ _ Hq1 Hc1 H1)
      as (s2 & cs2 & Hs2 & Hc2 & H2).
    exists s2, cs2. split; [exact (is_suffix_trans _ _ _ Hs2 Hs1)|auto].
  - apply orelse_some in H. destruct H as [H|[_ H]].
    + exact (IHr _ _ _ _ Hq Hcs H).
    + exists s, cs. auto using is_suffix_refl.
  - destruct (IHr _ _ _ _ Hq Hcs H) as (s1 & cs1 & Hs1 & Hc1 & H1).
    exists s1, ((n, firstn (length s - length s1) s) :: cs1).
    split; [assumption|]. split; [|assumption].
    constructor; [|assumption]. cbn [snd]. now apply forallb_firstn.
Qed.

Lemma search_keeps q d r ma s skipped rest cs :
  forallb q s = true ->
  Re.search d r ma s = Some (skipped, (rest, cs)) ->
  forallb q skipped = true /\ forallb q rest = true /\ caps_all q cs.
Proof.
  intros Hq Hs.
  destruct (search_split _ _ _ _ _ _ _ Hs) as (matched & -> & Hm & _).
  apply forallb_app_true in Hq. destruct Hq as [Hsk Hq].
  split; [assumption|].
  apply forallb_app_true in Hq as Hq'. destruct Hq' as [_ Hrest].
  split; [assumption|].
  unfold Re.match_here in Hm.
  apply rmatch_keeps with (q := q) in Hm; [|assumption|constructor].
  destruct Hm as (s' & cs' & _ & Hc & Hm).
  destruct (_ && _); [discriminate|]. now injection Hm as _ <-.
Qed.

Lemma group_text_keeps q n cs :
  caps_all q cs -> forallb q (Re.group_text n cs) = true.
Proof.
  induction 1 as [|[m t] cs Ht Hcs IH]; [reflexivity|].
  cbn [Re.group_text]. destruct (Nat.eqb m n); [exact Ht|exact IH].
Qed.

Lemma expand_keeps q tpl cs :
  template_all q tpl -> caps_all q cs -> forallb q (Re.expand tpl cs) = true.
Proof.
  intros Ht Hcs. induction Ht as [|[c|n] tpl Hi Ht IH]; [reflexivity| |].
  - cbn [Re.expand forallb]. now rewrite Hi, IH.
  - cbn [Re.expand]. apply forallb_app_true. split; [|exact IH].
    now apply group_text_keeps.
Qed.

Lemma sub_loop_keeps q fuel d r tpl count :
  template_all q tpl ->
  forall done ma s, forallb q s = true ->
    forallb q (Re.sub_loop fuel d r tpl count done ma s) = true.
Proof.
  intros Ht. induction fuel as [|fuel IH]; intros done ma s Hq; [exact Hq|].
  cbn [Re.sub_loop].
  destruct (negb (Nat.eqb count 0) && Nat.leb count done); [exact Hq|].
  destruct (Re.search d r ma s) as [[skipped [rest cs]]|] eqn:E; [|exact Hq].
  destruct (search_keeps q _ _ _ _ _ _ _ Hq E) as (Hsk & Hrest & Hcs).
  apply forallb_app_true. split; [assumption|].
  apply forallb_app_true. split; [now apply expand_keeps|now apply IH].
Qed.

Lemma template_all_literals q l :
  forallb q l = true -> template_all q (map Re.TLit l).
Proof.
  induction l as [|a l IH]; intros H; [constructor|].
  cbn [forallb] in H. apply andb_true_iff in H. destruct H as [Ha Hl].
  constructor; [exact Ha|now apply IH].
Qed.

(** Every character of the result of [wrap_function] is one of the input
    or one of the two replacement texts. *)
Lemma wrap_function_keeps (q : ascii -> bool) (content f out : string) :
  forallb q (chars content) = true ->
  forallb q (chars wrapper_opener) = true ->
  forallb q (chars written_closer) = true ->
  wrap_function content f = Ok out ->
  forallb q (chars out) = true.
Proof.
  intros Hc Ho Hw H. rewrite wrap_function_steps in H.
  destruct (step_a f content) as [c1| |] eqn:Ha; [|discriminate..].
  rewrite rbind_ok, step_b_compiled in H. injection H as <-.
  rewrite chars_text. apply sub_loop_keeps.
  { constructor; [exact I|now apply template_all_literals]. }
  apply step_a_returns in Ha. destruct Ha as (r & g & _ & ->).
  rewrite chars_text. apply sub_loop_keeps; [|exact Hc].
  constructor; [exact I|now apply template_all_literals].
Qed.

End CharFacts.

(** ** The loop and the end of the script *)
Section LoopMore.
Import Script.
Context {A S : Type} (body : A -> S -> result S).

Lemma for_each_cons (x : A) (xs : list A) (s : S) :
  for_each body (x :: xs) s = rbind (body x s) (for_each body xs).
Proof. reflexivity. Qed.

Lemma for_each_app (xs ys : list A) (s : S) :
  for_each body (xs ++ ys) s = rbind (for_each body xs s) (for_each body ys).
Proof.
  revert s. induction xs as [|x xs IH]; intros s; [reflexivity|].
  cbn [app]. rewrite !for_each_cons.
  destruct (body x s) as [s'| |]; [|reflexivity..].
  rewrite !rbind_ok. apply IH.
Qed.
End LoopMore.

Lemma wrap_all_cons (f : string) (functions : list string) (content : string) :
  wrap_all (f :: functions) content
  = rbind (wrap_function content f) (wrap_all functions).
Proof. unfold wrap_all. rewrite for_each_cons. reflexivity. Qed.

Lemma wrap_all_app (xs ys : list string) (content : string) :
  wrap_all (xs ++ ys) content = rbind (wrap_all xs content) (wrap_all ys).
Proof. unfold wrap_all. apply for_each_app. Qed.

Lemma wrap_all_raises (functions : list string) (content : string) (e : exn) :
  wrap_all functions content = Raise e -> exists re, e = ReError re.
Proof.
  revert content. induction functions as [|f functions IH]; intros content H.
  - discriminate.
  - rewrite wrap_all_cons in H.
    destruct (Re.compile (pattern f)) as [[r g]| e'|] eqn:Hr.
    + destruct (wrap_function_compiled content f r g Hr) as [out Hout].
      rewrite Hout, rbind_ok in H. now apply IH in H.
    + rewrite (wrap_function_raises content f e' Hr), rbind_raise in H.
      injection H as <-. now apply (compile_raises (pattern f)).
    + rewrite (wrap_function_unmodelled content f Hr), rbind_unmodelled in H.
      discriminate.
Qed.

Lemma main_finish (filename : string) (n : nat) (final : string) (w : world) :
  pbind (write_file filename final) (fun _ => print (summary n filename)) w
  = match fs w !! filename with
    | None =>
        (Ok tt,
         World (<[filename := File (text (newlines_out (chars (linesep w)) (chars final)))
                                   true true]> (fs w))
               (String.append (stdout w) (String.append (summary n filename) (String LF "")))
               (linesep w))
    | Some f =>
        if writable f then
          (Ok tt,
           World (<[filename := File (text (newlines_out (chars (linesep w)) (chars final)))
                                     (readable f) (writable f)]> (fs w))
                 (String.append (stdout w)
                    (String.append (summary n filename) (String LF "")))
                 (linesep w))
        else (Raise PermissionError, w)
    end.
Proof.
  unfold pbind, write_file, print.
  destruct (fs w !! filename) as [f|]; [|reflexivity].
  destruct (writable f); reflexivity.
Qed.

Lemma wrap_all_bad_name (functions : list string) (f : string) (e : exn) :
  In f functions -> Re.compile (pattern f) = Raise e ->
  (forall g, In g functions -> Re.compile (pattern g) <> Unmodelled) ->
  forall content, exists e', wrap_all functions content = Raise e'.
Proof.
  intros Hin Hf. induction functions as [|g functions IH]; intros Hm content.
  - destruct Hin.
  - rewrite wrap_all_cons.
    destruct (Re.compile (pattern g)) as [[r n]| e'|] eqn:Hr.
    + destruct (wrap_function_compiled content g r n Hr) as [out Hout].
      rewrite Hout, rbind_ok. apply IH.
      * destruct Hin as [->|Hin]; [congruence|exact Hin].
      * intros g' Hg'. apply Hm. now right.
    + rewrite (wrap_function_raises content g e' Hr), rbind_raise. eauto.
    + destruct (Hm g (or_introl eq_refl) Hr).
Qed.

Lemma wrap_all_keeps (q : ascii -> bool) (functions : list string) :
  forallb q (chars wrapper_opener) = true ->
  forallb q (chars written_closer) = true ->
  forall content out,
    forallb q (chars content) = true ->
    wrap_all functions content = Ok out ->
    forallb q (chars out) = true.
Proof.
  intros Ho Hw. induction functions as [|f functions IH]; intros content out Hc H.
  - injection H as <-. exact Hc.
  - rewrite wrap_all_cons in H.
    destruct (wrap_function content f) as [c1| |] eqn:H1; [|discriminate..].
    rewrite rbind_ok in H.
    apply (IH c1 out); [|exact H].
    exact (wrap_function_keeps q content f c1 Hc Ho Hw H1).
Qed.


(** ** Line ends *)
Section NewlineFacts.

Lemma newlines_in_no_cr (l : list ascii) : forallb no_cr (newlines_in l) = true.
Proof.
  assert (H : forall n l, length l <= n -> forallb no_cr (newlines_in l) = true).
  { clear l. induction n as [|n IH]; intros l Hn.
    - destruct l; [reflexivity|cbn in Hn; lia].
    - destruct l as [|c t]; [reflexivity|]. cbn [length] in Hn. cbn [newlines_in].
      destruct (Ascii.eqb c CR) eqn:E.
      + destruct t as [|c' t']; [reflexivity|]. cbn [length] in Hn.
        destruct (Ascii.eqb c' LF); cbn [forallb]; rewrite IH by (cbn [length]; lia);
          reflexivity.
      + cbn [forallb]. unfold no_cr at 1. rewrite E. cbn [negb andb]. apply IH. lia. }
  apply (H (length l)). lia.
Qed.

Lemma newlines_round_trip (sep l : list ascii) :
  sep = [LF] \/ sep = [CR; LF] ->
  forallb no_cr l = true ->
  newlines_in (newlines_out sep l) = l.
Proof.
  intros Hsep. induction l as [|c l IH]; intros H; [reflexivity|].
  cbn [forallb] in H. apply andb_true_iff in H. destruct H as [Hc Hl].
  unfold no_cr in Hc. apply negb_true_iff in Hc.
  cbn [newlines_out]. destruct (Ascii.eqb c LF) eqn:E.
  - apply Ascii.eqb_eq in E. subst c.
    destruct Hsep as [-> | ->]; cbn [app newlines_in].
    + rewrite Hc. now rewrite IH.
    + rewrite Ascii.eqb_refl. cbn. now rewrite IH.
  - cbn [newlines_in]. rewrite Hc. now rewrite IH.
Qed.

End NewlineFacts.

(** ** The texts the two patterns take *)
Section ShapeFacts.

Lemma catch_regex_explicit : catch_regex = catch_explicit.
Proof. reflexivity. Qed.

Lemma star_set_loop d neg items fuel :
  forall s cs k m,
    Re.star_loop (Re.rmatch d (Re.RSet neg items)) fuel s cs k = Some m ->
    exists pre s',
      s = pre ++ s' /\ forallb (Re.set_matches neg items) pre = true /\ k s' cs = Some m.
Proof.
  induction fuel as [|fuel IH]; intros s cs k m H.
  - cbn [Re.star_loop] in H. now exists [], s.
  - cbn [Re.star_loop] in H. apply orelse_some in H. destruct H as [H|[_ H]];
      [|now exists [], s].
    cbn [Re.rmatch] in H. destruct s as [|a t]; [discriminate|].
    destruct (Re.set_matches neg items a) eqn:Ea; [|discriminate].
    destruct (Nat.eqb (length t) (length (a :: t))).
    + exists [a], t. cbn [app forallb]. rewrite Ea. auto.
    + apply IH in H. destruct H as (pre & s' & -> & Hpre & H).
      exists (a :: pre), s'. cbn [app forallb]. rewrite Ea, Hpre. auto.
Qed.

Lemma set_not_lit (c : ascii) (l : list ascii) :
  forallb (Re.set_matches true [Re.CLit c]) l = free_of c l.
Proof.
  unfold free_of. induction l as [|a l IH]; [reflexivity|]. cbn [forallb].
  rewrite IH. unfold Re.set_matches. cbn [existsb Re.item_matches xorb].
  now rewrite orb_false_r.
Qed.

Lemma set_space (l : list ascii) :
  forallb (Re.set_matches false [Re.CSpace]) l = forallb Re.is_space l.
Proof.
  induction l as [|a l IH]; [reflexivity|]. cbn [forallb].
  rewrite IH. unfold Re.set_matches. cbn [existsb Re.item_matches xorb].
  now rewrite orb_false_r.
Qed.

Lemma firstn_prefix (l pre suf : list ascii) (n : nat) :
  l = pre ++ suf -> n = length l - length suf -> firstn n l = pre.
Proof. intros -> ->. apply firstn_app_exact. Qed.

Ltac take_set d H :=
  let pre := fresh "pre" in let s' := fresh "s" in let Hpre := fresh "Hpre" in
  apply (star_set_loop d) in H; destruct H as (pre & s' & -> & Hpre & H);
  cbn beta in H; cbn [Re.rmatch] in H.

Ltac take_lits H :=
  let s' := fresh "s" in
  apply rmatch_lits in H; destruct H as (s' & -> & H); cbn [Re.rmatch] in H.

Ltac take_char H :=
  match type of H with
  | match ?s with [] => _ | _ :: _ => _ end = Some _ =>
      let a := fresh "a" in let t := fresh "t" in let E := fresh "E" in
      destruct s as [|a t]; [discriminate|];
      match type of H with context [Ascii.eqb a ?c] =>
        destruct (Ascii.eqb a c) eqn:E; [|discriminate];
        apply Ascii.eqb_eq in E; subst a
      end
  end.

(** The whole header the entry pattern takes. *)
Lemma entry_match_header d f ma s rest cs :
  Re.match_here d (entry_regex f) ma s = Some (rest, cs) ->
  exists params between ws,
    cs = [(1, chars "export async function " ++ f ++ "(" :: params
                ++ ")" :: between ++ "{" :: ws)]
    /\ free_of ")" params = true /\ free_of "{" between = true
    /\ forallb Re.is_space ws = true
    /\ s = Re.group_text 1 cs ++ chars "try {" ++ rest.
Proof.
  unfold Re.match_here, entry_regex, entry_tail. cbn [Re.rmatch]. intros H.
  take_lits H. take_lits H. take_char H. take_set d H. take_char H.
  take_set d H. take_char H. take_set d H. take_lits H.
  match type of H with context [if ?c then _ else _] => destruct c end;
    [discriminate|]. injection H as -> <-.
  rewrite set_not_lit in Hpre, Hpre0. rewrite set_space in Hpre1.
  exists pre, pre0, pre1.
  match goal with |- context [firstn ?n ?l] =>
    replace (firstn n l)
      with (chars "export async function " ++ f ++ "(" :: pre
              ++ ")" :: pre0 ++ "{" :: pre1)
  end.
  - cbn [Re.group_text Nat.eqb]. repeat split; try assumption.
    rewrite <- !app_assoc. cbn [app]. rewrite <- !app_assoc. cbn [app].
    rewrite <- !app_assoc. reflexivity.
  - symmetry. apply (firstn_prefix _ _ (chars "try {" ++ rest)).
    + rewrite <- !app_assoc. cbn [app]. rewrite <- !app_assoc. cbn [app].
      rewrite <- !app_assoc. reflexivity.
    + reflexivity.
Qed.

(** The whole block the failure pattern takes. *)
Lemma catch_match_block d ma s rest cs :
  Re.match_here d catch_regex ma s = Some (rest, cs) ->
  exists ws1 b1 args b2 b3 b4 b5 ws2,
    cs = [(2, ws2); (1, ws1)]
    /\ s = ws1 ++ chars catch_opener ++ b1 ++ chars "console.error(" ++ args
             ++ chars ");" ++ b2 ++ chars "return {" ++ b3
             ++ chars "success: false," ++ b4 ++ chars "error: " ++ b5
             ++ chars "};" ++ ws2 ++ "}" :: rest
    /\ forallb Re.is_space ws1 = true /\ forallb Re.is_space ws2 = true
    /\ free_of ")" args = true
    /\ forallb (free_of "}") [b1; b2; b3; b4; b5] = true.
Proof.
  rewrite catch_regex_explicit.
  unfold Re.match_here, catch_explicit. cbn zeta. cbn [Re.rmatch]. intros H.
  take_set d H. take_lits H. take_set d H. take_lits H. take_set d H. take_lits H.
  take_set d H. take_lits H. take_set d H. take_lits H. take_set d H. take_lits H.
  take_set d H. take_lits H. take_set d H. take_char H.
  match type of H with context [if ?c then _ else _] => destruct c end;
    [discriminate|]. injection H as -> <-.
  rewrite set_space in Hpre, Hpre6.
  rewrite set_not_lit in Hpre0, Hpre1, Hpre2, Hpre3, Hpre4, Hpre5.
  exists pre, pre0, pre1, pre2, pre3, pre4, pre5, pre6.
  split; [|split; [reflexivity|]].
  - f_equal; [|f_equal]; f_equal.
    + apply (firstn_prefix _ _ ("}" :: rest)); reflexivity.
    + match goal with |- firstn _ (_ ++ ?suf) = _ =>
        apply (firstn_prefix _ _ suf); reflexivity end.
  - cbn [forallb]. rewrite Hpre, Hpre6, Hpre0, Hpre1, Hpre2, Hpre3, Hpre4, Hpre5.
    auto.
Qed.

End ShapeFacts.


(** * More properties of the script *)

(** X1.  The script ends with [IndexError] exactly when the command line
    has no file name: no other step of a run raises it. *)
Theorem index_error_iff_no_filename (argv : list string) (w : world) :
  fst (main argv w) = Raise IndexError <-> length argv < 2.
Proof.
  split.
  - intros H. destruct argv as [|prog [|filename functions]]; cbn [length]; try lia.
    exfalso. rewrite main_open in H.
    destruct (fs w !! filename) as [f|] eqn:Hf; [|discriminate].
    destruct (readable f); [|discriminate].
    destruct (wrap_all functions _) as [final|e|] eqn:Hall.
    + rewrite main_finish, Hf in H. destruct (writable f); discriminate.
    + apply wrap_all_raises in Hall. destruct Hall as [re ->]. discriminate.
    + discriminate.
  - intros H. now rewrite main_short_argv.
Qed.

(** X2.  All or nothing: a run that does not end normally leaves the
    world as it was; no file is changed and nothing is printed, also when
    the error comes after some names were already applied in memory. *)
Theorem failed_run_changes_nothing (argv : list string) (w : world) :
  fst (main argv w) <> Ok tt -> snd (main argv w) = w.
Proof.
  intros H. destruct argv as [|prog [|filename functions]]; [reflexivity..|].
  rewrite main_open in *.
  destruct (fs w !! filename) as [f|] eqn:Hf; [|reflexivity].
  destruct (readable f); [|reflexivity].
  destruct (wrap_all functions _) as [final|e|]; [|reflexivity..].
  rewrite main_finish, Hf in *.
  destruct (writable f); [|reflexivity]. now destruct H.
Qed.

Lemma failed_run_changes_nothing_witness :
  snd (main ["wrap_functions.py"; "actions.ts"; "save"; "("]%string
         (one_file posix "actions.ts" save_input))
  = one_file posix "actions.ts" save_input.
Proof.
  apply (failed_run_changes_nothing
           ["wrap_functions.py"; "actions.ts"; "save"; "("]%string
           (one_file posix "actions.ts" save_input)).
  vm_compute. discriminate.
Defined.

(** X3.  A run, however it ends, leaves every file but the one named on
    the command line as it was. *)
Theorem other_files_untouched (prog filename : string) (functions : list string)
    (w : world) (path : string) :
  path <> filename ->
  fs (snd (main (prog :: filename :: functions) w)) !! path = fs w !! path.
Proof.
  intros Hne. rewrite main_open.
  destruct (fs w !! filename) as [f|] eqn:Hf; [|reflexivity].
  destruct (readable f); [|reflexivity].
  destruct (wrap_all functions _) as [final|e|]; [|reflexivity..].
  rewrite main_finish, Hf.
  destruct (writable f); [|reflexivity].
  cbn [snd fs]. now apply lookup_insert_ne.
Qed.

Lemma other_files_untouched_witness :
  fs (snd (main ["wrap_functions.py"; "actions.ts"; "save"]%string
             (two_files save_input remove_input))) !! "other.ts"%string
  = fs (two_files save_input remove_input) !! "other.ts"%string.
Proof.
  apply (other_files_untouched "wrap_functions.py" "actions.ts" ["save"%string]
           (two_files save_input remove_input) "other.ts").
  discriminate.
Defined.

(** X4.  A run creates and removes no file, and leaves the permissions of
    the file it names and the line separator as they were. *)
Theorem target_keeps_permissions (prog filename : string) (functions : list string)
    (w : world) :
  (readable <$> fs (snd (main (prog :: filename :: functions) w)) !! filename)
  = (readable <$> fs w !! filename)
  /\ (writable <$> fs (snd (main (prog :: filename :: functions) w)) !! filename)
     = (writable <$> fs w !! filename)
  /\ dom (fs (snd (main (prog :: filename :: functions) w))) = dom (fs w)
  /\ linesep (snd (main (prog :: filename :: functions) w)) = linesep w.
Proof.
  rewrite main_open.
  destruct (fs w !! filename) as [f|] eqn:Hf;
    [|cbn [snd]; rewrite Hf; repeat split; reflexivity].
  destruct (readable f) eqn:Hr;
    [|cbn [snd]; rewrite Hf; repeat split; reflexivity].
  destruct (wrap_all functions _) as [final|e|];
    [|cbn [snd]; rewrite Hf; repeat split; reflexivity..].
  rewrite main_finish, Hf.
  destruct (writable f) eqn:Hw;
    [|cbn [snd]; rewrite Hf; repeat split; reflexivity].
  cbn [snd fs linesep]. rewrite lookup_insert_eq.
  cbn [fmap option_fmap option_map readable writable].
  rewrite Hr, Hw.
  split; [reflexivity|]. split; [reflexivity|]. split; [|reflexivity].
  rewrite dom_insert_L. apply elem_of_dom_2 in Hf. set_solver.
Qed.

(** X5.  A file that can be read but not written: the names are applied
    in memory, then [open(filename, 'w')] raises [PermissionError]; the
    file keeps its content and no summary is printed. *)
Theorem read_only_file_not_written (prog filename : string) (functions : list string)
    (w : world) (f : file) (final : string) :
  fs w !! filename = Some f -> readable f = true -> writable f = false ->
  wrap_all functions (text (newlines_in (chars (data f)))) = Ok final ->
  main (prog :: filename :: functions) w = (Raise PermissionError, w).
Proof.
  intros Hf Hr Hw Hall. rewrite (main_read _ _ _ _ _ Hf Hr), Hall.
  now rewrite main_finish, Hf, Hw.
Qed.

Lemma read_only_file_not_written_witness :
  main ["wrap_functions.py"; "actions.ts"; "save"]%string (read_only save_input)
  = (Raise PermissionError, read_only save_input).
Proof.
  apply (read_only_file_not_written "wrap_functions.py" "actions.ts" ["save"%string]
           (read_only save_input) (File save_input true false) save_output);
    vm_compute; reflexivity.
Defined.

(** X6.  One name whose entry pattern does not compile, anywhere in the
    list, makes the run end with [re.error] and the file is not written,
    whatever the names before it did to the content in memory.  All the
    names are names the model reads: pattern syntax of the fragment,
    groups nested at most [Re.max_nesting] deep (a name nested deeper
    ends in [RecursionError] and is outside the model). *)
Theorem bad_name_anywhere_aborts (prog filename : string) (functions : list string)
    (w : world) (file0 : file) (f : string) (e : exn) :
  fs w !! filename = Some file0 -> readable file0 = true ->
  In f functions -> Re.compile (pattern f) = Raise e ->
  (forall g, In g functions -> Re.compile (pattern g) <> Unmodelled) ->
  exists re, main (prog :: filename :: functions) w = (Raise (ReError re), w).
Proof.
  intros Hf Hr Hin He Hm. rewrite (main_read _ _ _ _ _ Hf Hr).
  destruct (wrap_all_bad_name functions f e Hin He Hm
              (text (newlines_in (chars (data file0))))) as [e' Hall].
  rewrite Hall. apply wrap_all_raises in Hall. destruct Hall as [re ->]. eauto.
Qed.

Lemma bad_name_anywhere_aborts_witness :
  exists re,
    main ["wrap_functions.py"; "actions.ts"; "save"; "a)"; "load"]%string
         (one_file posix "actions.ts" save_input)
    = (Raise (ReError re), one_file posix "actions.ts" save_input).
Proof.
  apply (bad_name_anywhere_aborts "wrap_functions.py" "actions.ts"
           ["save"; "a)"; "load"]%string (one_file posix "actions.ts" save_input)
           (File save_input true true) "a)" (ReError UnbalancedParen)).
  - vm_compute. reflexivity.
  - reflexivity.
  - right. left. reflexivity.
  - vm_compute. reflexivity.
  - intros g [<-|[<-|[<-|[]]]]; vm_compute; discriminate.
Defined.

(** X7.  Whether [wrap_function] raises depends on the name only.  For a
    name the model reads (pattern syntax of the fragment, groups nested
    at most [Re.max_nesting] deep): if [wrap_function] raises on one
    content it raises the same error on every content, and that error is
    the [re.error] of compiling the entry pattern.  Outside the fragment
    the model gives no verdict; a name nested some hundreds of groups
    deep ends in [RecursionError]. *)
Theorem error_depends_on_name_only (content content' f : string) (e : exn) :
  wrap_function content f = Raise e ->
  wrap_function content' f = Raise e
  /\ Re.compile (pattern f) = Raise e
  /\ exists re, e = ReError re.
Proof.
  intros H. destruct (Re.compile (pattern f)) as [[r g]| e'|] eqn:Hr.
  - destruct (wrap_function_compiled content f r g Hr) as [out Hout]. congruence.
  - rewrite (wrap_function_raises content f e' Hr) in H. injection H as <-.
    split; [now apply wrap_function_raises|]. split; [reflexivity|].
    now apply (compile_raises (pattern f)).
  - rewrite (wrap_function_unmodelled content f Hr) in H. discriminate.
Qed.

Lemma error_depends_on_name_only_witness :
  wrap_function save_input "save(" = Raise (ReError MissingParen)
  /\ Re.compile (pattern "save(") = Raise (ReError MissingParen)
  /\ exists re, ReError MissingParen = ReError re.
Proof.
  apply (error_depends_on_name_only "" save_input "save(" (ReError MissingParen)).
  vm_compute. reflexivity.
Defined.

(** X8.  Two texts decide whether [wrap_function] can change a content:
    for a name free of special characters, a content that holds neither
    the declaration text [export async function <name>(] nor the text
    [} catch (error) {] is returned as it is. *)
Theorem identity_without_key_texts (content f : string) :
  plain_name f = true ->
  occurs_in (declaration f) content = false ->
  occurs_in catch_opener content = false ->
  wrap_function content f = Ok content.
Proof.
  intros Hp Hd Hc. rewrite wrap_function_steps.
  assert (Ha : step_a f content = Ok content).
  { unfold step_a.
    apply (sub_no_match _ _ _ _ _ _ _ _ (compile_pattern_plain f Hp)
             (replacement_template 1 (le_n 1))).
    destruct (Re.search _ _ _ _) eqn:E; [|reflexivity].
    apply entry_search_declaration in E.
    unfold occurs_in, declaration in Hd. rewrite !chars_append in Hd.
    change (chars "(") with ["("] in Hd. congruence. }
  rewrite Ha. cbn [rbind]. unfold step_b.
  apply (sub_no_match _ _ _ _ _ _ _ _ compile_catch_pattern (catch_template_ok f)).
  destruct (Re.search _ _ _ _) eqn:E; [|reflexivity].
  apply catch_search_opener in E. unfold occurs_in in Hc. congruence.
Qed.

Lemma identity_without_key_texts_witness :
  wrap_function save_all_file "save" = Ok save_all_file.
Proof.
  apply (identity_without_key_texts save_all_file "save"); vm_compute; reflexivity.
Defined.

(** X9.  Step A, for a name free of special characters, at the first
    match of the entry pattern: the text before the match and the header
    (group 1, which starts with the declaration of the name) are kept as
    they are, the matched text is the header followed by [try {] and only
    that, the opener of the wrapper takes the place of [try {], and the
    text after the match is rewritten by Step A in the same way. *)
Theorem step_a_keeps_header (content f : string) (r : Re.regex) (g : nat)
    (skipped rest : list ascii) (cs : Re.caps) :
  plain_name f = true ->
  Re.compile (pattern f) = Ok (r, g) ->
  Re.search true r false (chars content) = Some (skipped, (rest, cs)) ->
  exists tail out_rest,
    Re.group_text 1 cs = chars (declaration f) ++ tail
    /\ chars content = skipped ++ Re.group_text 1 cs ++ chars "try {" ++ rest
    /\ step_a f (text rest) = Ok out_rest
    /\ step_a f content
       = Ok (String.append (text skipped)
               (String.append (text (Re.group_text 1 cs))
                  (String.append wrapper_opener out_rest))).
Proof.
  intros Hp Hc Hs. rewrite (compile_pattern_plain f Hp) in Hc. injection Hc as <- <-.
  destruct (search_split _ _ _ _ _ _ _ Hs) as (matched & Hsplit & Hm & _).
  apply entry_match_shape in Hm. destruct Hm as (tail & Hg & Hmatched).
  exists tail.
  exists (text (Re.sub_loop (sub_budget false rest) true (entry_regex (chars f))
                  entry_template 0 0 false rest)).
  assert (Hsub : forall c, step_a f c
            = Ok (text (Re.sub_loop (sub_budget false (chars c)) true
                          (entry_regex (chars f)) entry_template 0 0 false (chars c)))).
  { intros c. unfold step_a.
    apply (sub_compiled _ _ _ Re.DOTALL _ _ _ (compile_pattern_plain f Hp)
             (replacement_template 1 (le_n 1))). }
  split; [|split; [|split]].
  - rewrite Hg. unfold declaration. rewrite !chars_append.
    change (chars "(") with ["("]. rewrite <- !app_assoc. reflexivity.
  - rewrite Hsplit, Hmatched. reflexivity.
  - rewrite Hsub, chars_text. reflexivity.
  - rewrite Hsub. rewrite (sub_loop_step _ _ _ _ _ _ _ Hs).
    + unfold entry_template. cbn [Re.expand]. rewrite expand_literals.
      rewrite <- app_assoc, !text_app, text_chars. reflexivity.
    + rewrite Hsplit, Hmatched, !length_app. cbn [length chars].
      change (length (chars "try {")) with 5. lia.
Qed.

Lemma step_a_keeps_header_witness :
  exists tail out_rest,
    Re.group_text 1 [(1, chars "export async function save(x) { ")]
    = chars (declaration "save") ++ tail
    /\ chars save_input
       = [] ++ Re.group_text 1 [(1, chars "export async function save(x) { ")]
            ++ chars "try {" ++ chars save_rest
    /\ step_a "save" (text (chars save_rest)) = Ok out_rest
    /\ step_a "save" save_input
       = Ok (String.append (text [])
               (String.append
                  (text (Re.group_text 1 [(1, chars "export async function save(x) { ")]))
                  (String.append wrapper_opener out_rest))).
Proof.
  apply (step_a_keeps_header save_input "save" (entry_regex (chars "save")) 1
           [] (chars save_rest) [(1, chars "export async function save(x) { ")]);
    vm_compute; reflexivity.
Defined.

(** X10.  Step B only ever replaces a failure block of one shape: at a
    match of the catch pattern, the matched text is whitespace (group 1),
    [} catch (error) {], a call of [console.error(] with arguments free
    of a closing parenthesis, [);], [return {], [success: false,],
    [error: ] and [};], with texts free of a closing brace in between,
    then whitespace (group 2) and a closing brace. *)
Theorem step_b_replaces_catch_blocks_only (content : string) (r : Re.regex) (g : nat)
    (skipped rest : list ascii) (cs : Re.caps) :
  Re.compile catch_pattern = Ok (r, g) ->
  Re.search true r false (chars content) = Some (skipped, (rest, cs)) ->
  exists ws1 b1 args b2 b3 b4 b5 ws2,
    cs = [(2, ws2); (1, ws1)]
    /\ chars content
       = skipped ++ ws1 ++ chars catch_opener ++ b1 ++ chars "console.error(" ++ args
           ++ chars ");" ++ b2 ++ chars "return {" ++ b3
           ++ chars "success: false," ++ b4 ++ chars "error: " ++ b5
           ++ chars "};" ++ ws2 ++ "}" :: rest
    /\ forallb Re.is_space ws1 = true /\ forallb Re.is_space ws2 = true
    /\ free_of ")" args = true
    /\ forallb (free_of "}") [b1; b2; b3; b4; b5] = true.
Proof.
  intros Hc Hs. rewrite compile_catch_pattern in Hc. injection Hc as <- <-.
  destruct (search_split _ _ _ _ _ _ _ Hs) as (matched & Hsplit & Hm & _).
  apply catch_match_block in Hm.
  destruct Hm as (ws1 & b1 & args & b2 & b3 & b4 & b5 & ws2 & Hcs & Hmatched & Hrest).
  exists ws1, b1, args, b2, b3, b4, b5, ws2.
  split; [exact Hcs|]. split; [|exact Hrest].
  rewrite Hsplit, Hmatched. reflexivity.
Qed.

Lemma step_b_replaces_catch_blocks_only_witness :
  exists ws1 b1 args b2 b3 b4 b5 ws2,
    [(2, block_indent); (1, block_indent)] = [(2, ws2); (1, ws1)]
    /\ chars two_blocks
       = chars two_blocks_before ++ ws1 ++ chars catch_opener ++ b1
           ++ chars "console.error(" ++ args
           ++ chars ");" ++ b2 ++ chars "return {" ++ b3
           ++ chars "success: false," ++ b4 ++ chars "error: " ++ b5
           ++ chars "};" ++ ws2 ++ "}" :: chars two_blocks_after
    /\ forallb Re.is_space ws1 = true /\ forallb Re.is_space ws2 = true
    /\ free_of ")" args = true
    /\ forallb (free_of "}") [b1; b2; b3; b4; b5] = true.
Proof.
  apply (step_b_replaces_catch_blocks_only two_blocks catch_regex 2
           (chars two_blocks_before) (chars two_blocks_after)
           [(2, block_indent); (1, block_indent)]); vm_compute; reflexivity.
Defined.

(** X11.  [wrap_function] writes no character of its own making: every
    character of its result comes from the content, from the opener of
    the wrapper or from the closer.  So a property of characters that
    holds of these three holds of the result; the name contributes
    nothing. *)
Theorem output_chars_from_input_or_templates (q : ascii -> bool)
    (content f out : string) :
  forallb q (chars content) = true ->
  forallb q (chars wrapper_opener) = true ->
  forallb q (chars written_closer) = true ->
  wrap_function content f = Ok out ->
  forallb q (chars out) = true.
Proof.
  exact (wrap_function_keeps q content f out).
Qed.

Lemma output_chars_from_input_or_templates_witness :
  forallb no_cr (chars save_output) = true.
Proof.
  apply (output_chars_from_input_or_templates no_cr save_input "save" save_output);
    vm_compute; reflexivity.
Defined.

(** X12.  Two runs on the same file compose: where the platform line
    separator is a line feed or carriage return and line feed, running
    the script with the names [xs] and then with the names [ys] leaves
    the files as one run with [xs ++ ys] does.  The text the first run
    writes is read back by the second as the content the first computed. *)
Theorem two_runs_compose (prog filename : string) (xs ys : list string)
    (w : world) (f : file) (final : string) :
  linesep w = posix \/ linesep w = windows ->
  fs w !! filename = Some f -> readable f = true -> writable f = true ->
  wrap_all (xs ++ ys) (text (newlines_in (chars (data f)))) = Ok final ->
  fs (snd (main (prog :: filename :: ys) (snd (main (prog :: filename :: xs) w))))
  = fs (snd (main (prog :: filename :: xs ++ ys) w)).
Proof.
  intros Hsep Hf Hr Hw Hall.
  assert (E12 := main_written prog filename (xs ++ ys) w f final Hf Hr Hw Hall).
  rewrite wrap_all_app in Hall.
  destruct (wrap_all xs (text (newlines_in (chars (data f))))) as [c1| |] eqn:H1;
    [|discriminate..].
  rewrite rbind_ok in Hall.
  assert (E1 := main_written prog filename xs w f c1 Hf Hr Hw H1).
  assert (Hc1 : forallb no_cr (chars c1) = true).
  { apply (wrap_all_keeps no_cr xs eq_refl eq_refl _ _) with (2 := H1).
    rewrite chars_text. apply newlines_in_no_cr. }
  remember (main (prog :: filename :: xs ++ ys) w) as r12 eqn:Er12.
  remember (main (prog :: filename :: xs) w) as r1 eqn:Er1.
  rewrite E12 in Er12. rewrite E1 in Er1.
  subst r1 r12. cbn [snd fs].
  set (stored1 := text (newlines_out (chars (linesep w)) (chars c1))).
  set (w1 := World (<[filename := File stored1 true true]> (fs w)) _ (linesep w)).
  assert (Hf1 : fs w1 !! filename = Some (File stored1 true true))
    by apply lookup_insert_eq.
  assert (Hread : text (newlines_in (chars (data (File stored1 true true)))) = c1).
  { cbn [data]. unfold stored1. rewrite chars_text.
    rewrite newlines_round_trip; [apply text_chars| |exact Hc1].
    destruct Hsep as [-> | ->]; [now left|now right]. }
  assert (Hall2 : wrap_all ys (text (newlines_in (chars (data (File stored1 true true)))))
                  = Ok final) by (rewrite Hread; exact Hall).
  rewrite (main_written prog filename ys w1 _ final Hf1 eq_refl eq_refl Hall2).
  cbn [snd fs linesep]. apply insert_insert_eq.
Qed.

Lemma two_runs_compose_witness :
  fs (snd (main ["wrap_functions.py"; "actions.ts"; "first"]%string
             (snd (main ["wrap_functions.py"; "actions.ts"; "second"]%string
                     (one_file windows "actions.ts" two_blocks)))))
  = fs (snd (main ("wrap_functions.py" :: "actions.ts" :: ["second"] ++ ["first"])%string
               (one_file windows "actions.ts" two_blocks))).
Proof.
  apply (two_runs_compose "wrap_functions.py" "actions.ts" ["second"%string]
           ["first"%string] (one_file windows "actions.ts" two_blocks)
           (File two_blocks true true) two_blocks_both).
  - right. reflexivity.
  - vm_compute. reflexivity.
  - reflexivity.
  - reflexivity.
  - vm_compute. reflexivity.
Defined.

(** X13.  Step A only ever takes a declaration header of one shape: for
    a name free of special characters, the text matched by the entry
    pattern is [export async function <name>(], a parameter list free of
    a closing parenthesis, [)], a text free of an opening brace, [{],
    whitespace and [try {].  The opening brace is the first one after
    the first closing parenthesis, and only whitespace stands between it
    and [try {]. *)
Theorem step_a_takes_headers_only (content f : string) (r : Re.regex) (g : nat)
    (skipped rest : list ascii) (cs : Re.caps) :
  plain_name f = true ->
  Re.compile (pattern f) = Ok (r, g) ->
  Re.search true r false (chars content) = Some (skipped, (rest, cs)) ->
  exists params between ws,
    chars content
    = skipped ++ chars (declaration f) ++ params ++ ")" :: between ++ "{" :: ws
        ++ chars "try {" ++ rest
    /\ cs = [(1, chars (declaration f) ++ params ++ ")" :: between ++ "{" :: ws)]
    /\ free_of ")" params = true /\ free_of "{" between = true
    /\ forallb Re.is_space ws = true.
Proof.
  intros Hp Hc Hs. rewrite (compile_pattern_plain f Hp) in Hc. injection Hc as <- <-.
  destruct (search_split _ _ _ _ _ _ _ Hs) as (matched & Hsplit & Hm & _).
  apply entry_match_header in Hm.
  destruct Hm as (params & between & ws & Hcs & Hparams & Hbetween & Hws & Hmatched).
  exists params, between, ws.
  assert (Hd : chars (declaration f) ++ params ++ ")" :: between ++ "{" :: ws
               = chars "export async function " ++ chars f ++ "(" :: params
                   ++ ")" :: between ++ "{" :: ws).
  { unfold declaration. rewrite !chars_append. change (chars "(") with ["("].
    rewrite <- !app_assoc. reflexivity. }
  split; [|split; [|auto]].
  - rewrite Hsplit, Hmatched, Hcs. cbn [Re.group_text Nat.eqb].
    rewrite <- Hd, <- !app_assoc. cbn [app]. rewrite <- !app_assoc. reflexivity.
  - rewrite Hcs, Hd. reflexivity.
Qed.

Lemma step_a_takes_headers_only_witness :
  exists params between ws,
    chars save_input
    = [] ++ chars (declaration "save") ++ params ++ ")" :: between ++ "{" :: ws
        ++ chars "try {" ++ chars save_rest
    /\ [(1, chars "export async function save(x) { ")]
       = [(1, chars (declaration "save") ++ params ++ ")" :: between ++ "{" :: ws)]
    /\ free_of ")" params = true /\ free_of "{" between = true
    /\ forallb Re.is_space ws = true.
Proof.
  apply (step_a_takes_headers_only save_input "save" (entry_regex (chars "save")) 1
           [] (chars save_rest) [(1, chars "export async function save(x) { ")]);
    vm_compute; reflexivity.
Defined.
